(** * pfzf: the content chunker and the file scanner

    A shallow embedding of [internal/processor] (the chunker) and
    [internal/scanner] (skip decision, binary classification, options) of
    lc/pfzf, with the properties its specification states about them.
    Further modules embed the rest of the chunker, the processor that
    calls it and its comment stripper, the configuration of a scanner, the
    start of [main] and the ignore patterns of the directory tree, with
    properties read off the code.

    Conventions.
    - Go's [int64] and [int] (64 bits) are integers of [Z]; every sum and
      difference the code computes goes through [Int64.wrap]. The length of
      a slice is an [int], so a list stands for a slice when its length is
      at most [Int64.max_int].
    - A [[]byte] argument is its elements together with the unused capacity
      behind them: [append] writes into that capacity when there is room,
      and the chunker appends to sub-slices of its argument.
    - A run of the chunker either returns or panics on a slice expression
      that is out of range; the loop is driven by fuel, and [Chunk] is given
      enough of it (see [ChunkerFacts.Chunk_terminates]).
    - Functions of Go's standard library ([bytes.TrimSpace], the [unicode]
      tables, [path/filepath]) are parameters, collected in type classes.
      The path separator is that of Unix.
    - A file is the bytes it holds; the one [Read] of [isBinaryFile] fills
      its buffer with the first 512 of them, or with all when there are
      fewer. *)

From Stdlib Require Import ZArith Lia List Bool Strings.String Strings.Ascii Strings.Byte.
From Stdlib Require Import Floats Uint63.
From stdpp Require Import base list.

Open Scope Z_scope.

(** ** 64-bit signed arithmetic *)

Module Int64.

Definition min_int : Z := - 2 ^ 63.
Definition max_int : Z := 2 ^ 63 - 1.

Definition in_range (z : Z) : Prop := min_int <= z <= max_int.

(** Two's complement reduction of an integer to 64 bits. *)
Definition wrap (z : Z) : Z := (z + 2 ^ 63) mod 2 ^ 64 - 2 ^ 63.

Definition add (a b : Z) : Z := wrap (a + b).
Definition sub (a b : Z) : Z := wrap (a - b).

End Int64.

(** ** Outcomes of a Go call *)

Inductive outcome (A : Type) : Type :=
| Returned (a : A)
| Panicked.
Arguments Returned {A} a.
Arguments Panicked {A}.

(** A Go [error] value; [None] is [nil]. *)
Definition error : Type := option string.

(** ** Package [types] *)

Module types.

Record Chunk : Type := mkChunk {
  Content : list byte;
  StartLine : Z;
  EndLine : Z;
  TokenCount : Z
}.

Record ScanOptions : Type := mkScanOptions {
  RootDir : string;
  IgnorePattern : list string;
  MaxFileSize : Z;
  MaxFiles : Z
}.

End types.

(** ** The standard library the code calls *)

Definition rune : Type := Z.

Definition newline : byte := x0a.

(** [bytes.TrimSpace s] is [nil] when [s] holds white space only, and the
    sub-slice [s[lo:hi]] otherwise; which bounds it picks is the library's
    reading of Unicode white space. [runesOf] is the sequence of runes a
    [range] over a string yields. *)
Class GoText : Type := {
  trimSpaceBounds : list byte -> option (nat * nat);
  trimSpaceBounds_ok : forall s lo hi,
    trimSpaceBounds s = Some (lo, hi) -> (lo < hi <= length s)%nat;
  runesOf : list byte -> list rune;
  IsSpace : rune -> bool;
  IsGraphic : rune -> bool;
  (* strings.TrimSpace(s) == "" *)
  isBlank : string -> bool
}.

(** [path/filepath]: [Match] returns the verdict and whether the pattern was
    malformed ([ErrBadPattern]); [Rel] and [Abs] return a path or fail. *)
Class GoPath : Type := {
  Match : string -> string -> bool * bool;
  Rel : string -> string -> option string;
  Abs : string -> option string
}.

(** ** Package [processor]: the chunker *)

Module processor.

Record ChunkerOptions : Type := mkChunkerOptions {
  MaxSize : Z;
  Overlap : Z;
  MaxTokens : Z;
  PreserveML : bool
}.

(** A [[]byte] as the caller passes it. *)
Record ByteSlice : Type := mkByteSlice {
  elems : list byte;   (* content[0:len(content)] *)
  room : list byte     (* the array between len(content) and cap(content) *)
}.

(** The caller's backing array, from the first element of [content] to the
    end of its capacity. Its length never changes. *)
Abbreviation store := (list byte).

(** What the [Content] field of a chunk points to while the chunker runs. *)
Inductive bytes_ref : Type :=
| InCaller (off n : nat)     (* [n] bytes of the caller's array from [off] *)
| Fresh (bs : list byte).    (* an array allocated by [append] *)

Record raw_chunk : Type := mkRaw {
  rContent : bytes_ref;
  rStartLine : Z;
  rEndLine : Z;
  rTokenCount : Z
}.

Definition read (m : store) (off n : nat) : list byte := take n (drop off m).

Definition deref (m : store) (r : bytes_ref) : list byte :=
  match r with
  | InCaller off n => read m off n
  | Fresh bs => bs
  end.

(** A slice expression [s[lo:hi]] on a slice of capacity [cap]: the window
    it denotes (offset and length), or [None] for the run-time panic. *)
Definition slice_expr (cap : nat) (lo hi : Z) : option (nat * nat) :=
  if (0 <=? lo) && (lo <=? hi) && (hi <=? Z.of_nat cap)
  then Some (Z.to_nat lo, Z.to_nat (hi - lo))
  else None.

Section WithText.
Context {text : GoText}.

Definition TrimSpace (s : list byte) : list byte :=
  match trimSpaceBounds s with
  | Some (lo, hi) => take (hi - lo) (drop lo s)
  | None => []
  end.

Fixpoint countTokens_from (rs : list rune) (inWord : bool) (count : Z) : Z :=
  match rs with
  | [] => count
  | r :: rs' =>
      if IsSpace r then countTokens_from rs' false count
      else if negb inWord then countTokens_from rs' true (count + 1)
      else countTokens_from rs' inWord count
  end.

Definition countTokens (text : list byte) : Z :=
  countTokens_from (runesOf text) false 0.

(** [append(bytes.TrimSpace(w), '\n')] for the window [w] of [n] bytes at
    offset [off] of the caller's array: the newline is written in place
    when the trimmed sub-slice has capacity left, which it has whenever
    it ends before the end of the array. *)
Definition appendTrimmed (m : store) (off n : nat) : bytes_ref * store :=
  match trimSpaceBounds (read m off n) with
  | None => (Fresh [newline], m)
  | Some (lo, hi) =>
      if decide (off + hi < length m)%nat
      then (InCaller (off + lo) (hi - lo + 1), <[(off + hi)%nat := newline]> m)
      else (Fresh (read m (off + lo) (hi - lo) ++ [newline]), m)
  end.

(** The composite literal [types.Chunk{Content: append(...), StartLine: 1,
    EndLine: 1, TokenCount: c.countTokens(string(w))}]; the calls are made
    in the order of the fields, so the tokens are counted in the window as
    the append leaves it. *)
Definition newChunk (m : store) (off n : nat) : raw_chunk * store :=
  let '(r, m1) := appendTrimmed m off n in
  (mkRaw r 1 1 (countTokens (read m1 off n)), m1).

Record loop_state : Type := mkState {
  mem : store;
  pos : Z;
  chunks : list raw_chunk
}.

Inductive step_result : Type :=
| Next (s : loop_state)      (* the body ran to its end *)
| Break (s : loop_state)     (* the body left the loop *)
| Panic.

Definition chunkSizeAt (opts : ChunkerOptions) (contentLen p : Z) : Z :=
  if Int64.add p (MaxSize opts) >? contentLen
  then Int64.sub contentLen p
  else MaxSize opts.

Definition advanceOf (opts : ChunkerOptions) (chunkSize : Z) : Z :=
  let advance := Int64.sub chunkSize (Overlap opts) in
  if advance <? 1 then 1 else advance.

(** The body of [for pos < contentLen { ... }]. *)
Definition loop_body (opts : ChunkerOptions) (contentLen : Z) (s : loop_state)
  : step_result :=
  let chunkSize := chunkSizeAt opts contentLen (pos s) in
  match slice_expr (length (mem s)) (pos s) (Int64.add (pos s) chunkSize) with
  | None => Panic
  | Some (off, n) =>
      let '(c, m1) := newChunk (mem s) off n in
      let chunks1 := chunks s ++ [c] in
      let pos1 := Int64.add (pos s) (advanceOf opts chunkSize) in
      if (pos1 <? contentLen) && (Int64.sub contentLen pos1 <=? Overlap opts)
      then
        match slice_expr (length m1) pos1 contentLen with
        | None => Panic
        | Some (off2, n2) =>
            if (0 <? n2)%nat
            then let '(c2, m2) := newChunk m1 off2 n2 in
                 Break (mkState m2 pos1 (chunks1 ++ [c2]))
            else Break (mkState m1 pos1 chunks1)
        end
      else Next (mkState m1 pos1 chunks1)
  end.

Fixpoint loop (fuel : nat) (opts : ChunkerOptions) (contentLen : Z)
  (s : loop_state) : option (outcome loop_state) :=
  match fuel with
  | O => None
  | S fuel' =>
      if pos s <? contentLen
      then match loop_body opts contentLen s with
           | Next s' => loop fuel' opts contentLen s'
           | Break s' => Some (Returned s')
           | Panic => Some Panicked
           end
      else Some (Returned s)
  end.

(** [Chunker.Chunk] up to the [return]: the chunks as references, and the
    caller's array as the run leaves it. *)
Definition Chunk_run (fuel : nat) (opts : ChunkerOptions) (content : ByteSlice)
  : option (outcome loop_state) :=
  let m := elems content ++ room content in
  let contentLen := Z.of_nat (length (elems content)) in
  if (length (elems content) =? 0)%nat
  then Some (Returned (mkState m 0 []))
  else if (0 <? MaxSize opts) && (contentLen <=? MaxSize opts)
  then let '(c, m1) := newChunk m 0 (length (elems content)) in
       Some (Returned (mkState m1 0 [c]))
  else loop fuel opts contentLen (mkState m 0 []).

(** What the caller reads in a returned chunk. *)
Definition publish (m : store) (c : raw_chunk) : types.Chunk :=
  types.mkChunk (deref m (rContent c)) (rStartLine c) (rEndLine c) (rTokenCount c).

Definition result_of (r : outcome loop_state) : outcome (list types.Chunk * error) :=
  match r with
  | Returned s => Returned (map (publish (mem s)) (chunks s), None)
  | Panicked => Panicked
  end.

(** [func (c *Chunker) Chunk(content []byte) ([]types.Chunk, error)].
    [None] would mean that the loop was still running when the fuel ran
    out; it never is ([ChunkerFacts.Chunk_terminates]). *)
Definition Chunk (opts : ChunkerOptions) (content : ByteSlice)
  : option (outcome (list types.Chunk * error)) :=
  option_map result_of (Chunk_run (S (length (elems content))) opts content).

(** The state in which the loop starts its iteration [n + 1], when it gets
    that far. *)
Fixpoint after (n : nat) (opts : ChunkerOptions) (contentLen : Z) (s : loop_state)
  : option loop_state :=
  match n with
  | O => Some s
  | S n' =>
      if pos s <? contentLen
      then match loop_body opts contentLen s with
           | Next s' => after n' opts contentLen s'
           | _ => None
           end
      else None
  end.

(** *** A run in two parts

    The windows a run cuts depend on the options and the length of the
    content alone, and the bytes only on the windows: [plan] computes the
    first, [emit] the second ([ChunkerFacts.loop_plan] relates them to
    [loop]). *)

Fixpoint emit (ws : list (nat * nat)) (m : store) : list raw_chunk * store :=
  match ws with
  | [] => ([], m)
  | (off, n) :: ws' =>
      let '(c, m1) := newChunk m off n in
      let '(cs, m2) := emit ws' m1 in
      (c :: cs, m2)
  end.

End WithText.

Inductive plan_step : Type :=
| PNext (w : nat * nat) (pos1 : Z)
| PBreak (ws : list (nat * nat)) (pos1 : Z)
| PPanic.

Definition plan_body (opts : ChunkerOptions) (contentLen p : Z) : plan_step :=
  let chunkSize := chunkSizeAt opts contentLen p in
  match slice_expr (Z.to_nat contentLen) p (Int64.add p chunkSize) with
  | None => PPanic
  | Some w =>
      let pos1 := Int64.add p (advanceOf opts chunkSize) in
      if (pos1 <? contentLen) && (Int64.sub contentLen pos1 <=? Overlap opts)
      then
        match slice_expr (Z.to_nat contentLen) pos1 contentLen with
        | None => PPanic
        | Some w2 => if (0 <? snd w2)%nat then PBreak [w; w2] pos1 else PBreak [w] pos1
        end
      else PNext w pos1
  end.

Fixpoint plan (fuel : nat) (opts : ChunkerOptions) (contentLen p : Z)
  : option (outcome (list (nat * nat) * Z)) :=
  match fuel with
  | O => None
  | S fuel' =>
      if p <? contentLen
      then match plan_body opts contentLen p with
           | PNext w pos1 =>
               match plan fuel' opts contentLen pos1 with
               | Some (Returned (ws, q)) => Some (Returned (w :: ws, q))
               | r => r
               end
           | PBreak ws pos1 => Some (Returned (ws, pos1))
           | PPanic => Some Panicked
           end
      else Some (Returned ([], p))
  end.

Definition outcome_map {A B : Type} (f : A -> B) (r : outcome A) : outcome B :=
  match r with
  | Returned a => Returned (f a)
  | Panicked => Panicked
  end.

(** The windows of a whole call: none for empty content, the whole content
    when it fits, the loop's otherwise. *)
Definition Chunk_plan_at (fuel : nat) (opts : ChunkerOptions) (n : nat)
  : option (outcome (list (nat * nat))) :=
  if (n =? 0)%nat then Some (Returned [])
  else if (0 <? MaxSize opts) && (Z.of_nat n <=? MaxSize opts) then Some (Returned [(O, n)])
  else option_map (outcome_map fst) (plan fuel opts (Z.of_nat n) 0).

Definition Chunk_plan (opts : ChunkerOptions) (n : nat) : option (outcome (list (nat * nat))) :=
  Chunk_plan_at (S n) opts n.

(** How far [p] is from the end of the loop: a negative position panics at
    once, like one at or behind [contentLen] leaves at once. *)
Definition dist (contentLen p : Z) : nat :=
  if p <? 0 then O else Z.to_nat (contentLen - p).

Definition ref_len (r : bytes_ref) : nat :=
  match r with
  | InCaller _ n => n
  | Fresh bs => length bs
  end.

(** A reference that ends in a newline of the store it is read in. *)
Definition ref_ok (m : store) (r : bytes_ref) : Prop :=
  match r with
  | InCaller off n =>
      (1 <= n)%nat /\ (off + n <= length m)%nat /\ m !! (off + n - 1)%nat = Some newline
  | Fresh bs => exists b, bs = b ++ [newline]
  end.

(** [m'] is [m] after some newlines were written into it. *)
Definition nl_ext (m m' : store) : Prop :=
  length m' = length m /\ forall q, m !! q = Some newline -> m' !! q = Some newline.

(** The windows of the scenario: 70 bytes, [MaxSize = 20], [Overlap = 5]. *)
Definition windows70 : list (nat * nat) :=
  [(0, 20); (15, 20); (30, 20); (45, 20); (60, 10); (65, 5)]%nat.

(** The bodies of consecutive chunks put end to end, each after the first
    without its first [overlap] bytes. *)
Definition stitch (overlap : nat) (bodies : list (list byte)) : list byte :=
  match bodies with
  | [] => []
  | b :: rest => b ++ flat_map (drop overlap) rest
  end.

(** A chunk's content without its last byte, the newline [Chunk] appended. *)
Definition body (c : types.Chunk) : list byte :=
  take (length (types.Content c) - 1) (types.Content c).

End processor.

(** ** Package [scanner] *)

Module scanner.

Definition binaryCheckSize : nat := 512.
(** The constant [0.3] as a [float64]: the double nearest to 3/10. *)
Definition binaryThreshold : float := 0x1.3333333333333p-2%float.
Definition workerCount : nat := 4.

(** The context, the wait group and the channels of a [Scanner] carry no
    data; the options are its state. *)
Record Scanner : Type := mkScanner { opts : types.ScanOptions }.

(** [type Option func(s *Scanner) error]: the scanner as the call leaves it,
    and the error. *)
Definition Option : Type := Scanner -> Scanner * error.

(** The fields of [os.FileInfo] the scanner reads. *)
Record FileInfo : Type := mkFileInfo { IsDir : bool; Size : Z }.

(** What [os.Open] and the first [Read] give for a path. *)
Inductive file_view : Type :=
| OpenFails (e : string)
| ReadFails (e : string)
| Holds (data : list byte).

Definition Separator : string := "/".

Definition HasPrefix (s pre : string) : bool := String.prefix pre s.

Definition HasSuffix (s suf : string) : bool :=
  (String.length suf <=? String.length s)%nat
  && String.eqb (substring (String.length s - String.length suf) (String.length suf) s) suf.

Definition TrimSuffix (s suf : string) : string :=
  if HasSuffix s suf then substring 0 (String.length s - String.length suf) s else s.

Definition with_RootDir (o : types.ScanOptions) (d : string) : types.ScanOptions :=
  types.mkScanOptions d (types.IgnorePattern o) (types.MaxFileSize o) (types.MaxFiles o).
Definition with_IgnorePattern (o : types.ScanOptions) (ps : list string) : types.ScanOptions :=
  types.mkScanOptions (types.RootDir o) ps (types.MaxFileSize o) (types.MaxFiles o).
Definition with_MaxFileSize (o : types.ScanOptions) (n : Z) : types.ScanOptions :=
  types.mkScanOptions (types.RootDir o) (types.IgnorePattern o) n (types.MaxFiles o).
Definition with_MaxFiles (o : types.ScanOptions) (n : Z) : types.ScanOptions :=
  types.mkScanOptions (types.RootDir o) (types.IgnorePattern o) (types.MaxFileSize o) n.

Section WithLibrary.
Context {text : GoText} {fpath : GoPath}.

Definition WithRootDir (dir : string) : Option := fun s =>
  let dir := if String.eqb dir "" then "."%string else dir in
  match Abs dir with
  | None => (s, Some "invalid root directory"%string)
  | Some absPath => (mkScanner (with_RootDir (opts s) absPath), None)
  end.

Definition WithIgnorePattern (patterns : list string) : Option := fun s =>
  (fold_left
     (fun s pattern =>
        if negb (isBlank pattern)
        then mkScanner (with_IgnorePattern (opts s) (types.IgnorePattern (opts s) ++ [pattern]))
        else s)
     patterns s,
   None).

Definition WithMaxFileSize (size : Z) : Option := fun s =>
  if size <? 0
  then (s, Some "max file size must be non-negative"%string)
  else (mkScanner (with_MaxFileSize (opts s) size), None).

Definition WithMaxFiles (count : Z) : Option := fun s =>
  if count <? 0
  then (s, Some "max files must be non-negative"%string)
  else (mkScanner (with_MaxFiles (opts s) count), None).

(** The loop of [New] over its options. *)
Fixpoint applyOptions (os : list Option) (s : Scanner) : option Scanner * error :=
  match os with
  | [] => (Some s, None)
  | opt :: rest =>
      match opt s with
      | (_, Some err) => (None, Some err)
      | (s', None) => applyOptions rest s'
      end
  end.

Definition New (os : list Option) : option Scanner * error :=
  applyOptions os (mkScanner (types.mkScanOptions "." [] (Z.shiftl 1 20) 0)).

(** The loop of [shouldSkip] over the ignore patterns. *)
Fixpoint matchPatterns (patterns : list string) (relPath : string) (isDir : bool)
  : bool * bool :=
  match patterns with
  | [] => (false, false)
  | pattern :: rest =>
      let '(matched, bad) := Match pattern relPath in
      if negb bad && matched then (true, isDir)
      else if HasSuffix pattern "/*"
              && HasPrefix relPath (TrimSuffix pattern "/*" ++ Separator)
      then (true, isDir)
      else matchPatterns rest relPath isDir
  end.

Definition shouldSkip (s : Scanner) (path : string) (info : FileInfo) : bool * bool :=
  if negb (IsDir info) && (Size info >? types.MaxFileSize (opts s))
  then (true, false)
  else
    let relPath := match Rel (types.RootDir (opts s)) path with
                   | Some r => r
                   | None => path
                   end in
    matchPatterns (types.IgnorePattern (opts s)) relPath (IsDir info).

(** What the callback given to [filepath.Walk] does with an entry that
    came without an error, while the scan is not cancelled. *)
Inductive walk_action : Type :=
| SkipDir                 (* return filepath.SkipDir *)
| Pass                    (* return nil, nothing sent *)
| Send (path : string).   (* paths <- path; return nil *)

Definition visit (s : Scanner) (path : string) (info : FileInfo) : walk_action :=
  let '(skip, skipDir) := shouldSkip s path info in
  if skip
  then if IsDir info && skipDir then SkipDir else Pass
  else if negb (IsDir info) then Send path else Pass.

Definition nonPrintableByte (b : byte) : bool :=
  let r : rune := Z.of_N (Byte.to_N b) in
  (r =? 0) || (negb (IsGraphic r) && negb (IsSpace r)).

Fixpoint countNonPrintable (buf : list byte) (nonPrintable : Z) : Z :=
  match buf with
  | [] => nonPrintable
  | b :: buf' =>
      countNonPrintable buf' (if nonPrintableByte b then nonPrintable + 1 else nonPrintable)
  end.

Definition float64 (n : Z) : float := PrimFloat.of_uint63 (Uint63.of_Z n).

Definition isBinaryFile (f : file_view) : bool * error :=
  match f with
  | OpenFails e => (false, Some e)
  | ReadFails e => (false, Some e)
  | Holds data =>
      let buf := take binaryCheckSize data in
      if (length buf =? 0)%nat then (false, None)
      else
        let nonPrintable := countNonPrintable buf 0 in
        let ratio := PrimFloat.div (float64 nonPrintable) (float64 (Z.of_nat (length buf))) in
        (PrimFloat.ltb binaryThreshold ratio, None)
  end.

(** One ignore pattern against a relative path, as the loop of
    [shouldSkip] tests it: a glob match of the whole path, or a path below
    the directory of a pattern [dir/*]. *)
Definition patternHits (pattern relPath : string) : bool :=
  (let '(matched, bad) := Match pattern relPath in negb bad && matched)
  || (HasSuffix pattern "/*" && HasPrefix relPath (TrimSuffix pattern "/*" ++ Separator)).

Definition relPathOf (s : Scanner) (path : string) : string :=
  match Rel (types.RootDir (opts s)) path with
  | Some r => r
  | None => path
  end.

(** The bytes the specification counts in a sample: a literal zero byte,
    and a byte that is neither graphic nor white space. *)
Definition countedBySpec (b : byte) : bool :=
  Byte.eqb b x00
  || negb (IsGraphic (Z.of_N (Byte.to_N b)) || IsSpace (Z.of_N (Byte.to_N b))).

(** Whether the ratio of [nonPrintable] to [n] is above the threshold, as
    [isBinaryFile] computes it in [float64]. *)
Definition ratioExceeds (nonPrintable n : Z) : bool :=
  PrimFloat.ltb binaryThreshold (PrimFloat.div (float64 nonPrintable) (float64 n)).

(** [P] on [count] consecutive integers from [z]. *)
Fixpoint allFrom (count : nat) (z : Z) (P : Z -> bool) : bool :=
  match count with
  | O => true
  | S c => P z && allFrom c (z + 1) P
  end.

(** Every ratio a sample of at most 512 bytes can give, against the exact
    comparison [nonPrintable / n > 3 / 10]: one cell for [k] bytes out of
    [n], one row for a sample of [n] bytes. *)
Definition cellExact (n k : Z) : bool :=
  Bool.eqb (ratioExceeds k n) (3 * n <? 10 * k).

Definition rowExact (n : Z) : bool := allFrom (S (Z.to_nat n)) 0 (cellExact n).

End WithLibrary.

End scanner.

(** ** The library on ASCII text

    An instance of the two classes that agrees with Go on ASCII text, on
    bytes read as Latin-1 runes, and on glob patterns built from literal
    characters, [*] and [?]. The properties below hold for every instance;
    this one runs the code on concrete inputs. *)

Module Ascii7.

Definition asciiSpace (b : byte) : bool :=
  match b with
  | x09 | x0a | x0b | x0c | x0d | x20 => true
  | _ => false
  end.

Fixpoint leadingSpace (s : list byte) : nat :=
  match s with
  | b :: s' => if asciiSpace b then S (leadingSpace s') else O
  | [] => O
  end.

Definition bounds (s : list byte) : option (nat * nat) :=
  let lo := leadingSpace s in
  let hi := (length s - leadingSpace (rev s))%nat in
  if (lo <? hi)%nat then Some (lo, hi) else None.

Definition runes (s : list byte) : list rune :=
  map (fun b => Z.of_N (Byte.to_N b)) s.

(** [unicode.IsSpace]. *)
Definition isSpace (r : rune) : bool :=
  ((9 <=? r) && (r <=? 13)) || (r =? 32) || (r =? 133) || (r =? 160)
  || (r =? 5760) || ((8192 <=? r) && (r <=? 8202)) || (r =? 8232) || (r =? 8233)
  || (r =? 8239) || (r =? 8287) || (r =? 12288).

(** [unicode.IsGraphic] on Latin-1. *)
Definition isGraphic (r : rune) : bool :=
  ((32 <=? r) && (r <=? 126)) || ((160 <=? r) && (r <=? 255) && negb (r =? 173)).

Definition blank (s : string) : bool := forallb asciiSpace (list_byte_of_string s).

Fixpoint glob (p n : list ascii) : bool :=
  match p with
  | [] => match n with [] => true | _ => false end
  | c :: p' =>
      if Ascii.eqb c "*" then
        (fix star (n : list ascii) : bool :=
           glob p' n
           || match n with
              | d :: n' => if Ascii.eqb d "/" then false else star n'
              | [] => false
              end) n
      else
        match n with
        | d :: n' =>
            (if Ascii.eqb c "?" then negb (Ascii.eqb d "/") else Ascii.eqb c d)
            && glob p' n'
        | [] => false
        end
  end.

Definition rel (root path : string) : option string :=
  if String.eqb path root then Some "."%string
  else if String.eqb root "." then Some path
  else if String.prefix (root ++ "/") path
  then Some (substring (String.length root + 1)
               (String.length path - (String.length root + 1)) path)
  else None.

Definition abs (p : string) : option string :=
  if String.prefix "/" p then Some p else Some ("/" ++ p)%string.

End Ascii7.

(** ** Package [processor]: the rest of the chunker *)

Module chunker.
Import processor.

(** [bytes.IndexByte]: the index of the first [c] in [data], [-1] when
    there is none. *)
Fixpoint IndexByte (data : list byte) (c : byte) : Z :=
  match data with
  | [] => -1
  | b :: rest =>
      if Byte.eqb b c then 0
      else let i := IndexByte rest c in
           if i <? 0 then -1 else i + 1
  end.

(** The loop of [countLines]. *)
Fixpoint countLines_from (text : list byte) (count : Z) : Z :=
  match text with
  | [] => count
  | b :: rest => countLines_from rest (if Byte.eqb b newline then count + 1 else count)
  end.

Definition countLines (text : list byte) : Z := countLines_from text 0 + 1.

(** [func (c *Chunker) splitMarkup(data []byte, atEOF bool)
    (advance int, token []byte, err error)]; a [nil] token is [None], and
    [data[0]] on empty data panics. *)
Definition splitMarkup (data : list byte) (atEOF : bool)
  : outcome (Z * option (list byte) * error) :=
  if atEOF && (length data =? 0)%nat then Returned (0, None, None)
  else
    match data with
    | [] => Panicked
    | d0 :: _ =>
        let tag :=
          if Byte.eqb d0 "<"%byte
          then
            let i := IndexByte data ">"%byte in
            if 0 <=? i
            then
              if (i + 1 <? Z.of_nat (length data))
                 && (match data !! Z.to_nat (i + 1) with
                     | Some b => Byte.eqb b newline
                     | None => false
                     end)
              then Some (i + 2, Some (take (Z.to_nat (i + 1)) data), None)
              else Some (i + 1, Some (take (Z.to_nat (i + 1)) data), None)
            else None
          else None in
        match tag with
        | Some r => Returned r
        | None =>
            let i := IndexByte data newline in
            if 0 <=? i then Returned (i + 1, Some (take (Z.to_nat i) data), None)
            else if atEOF then Returned (Z.of_nat (length data), Some data, None)
            else Returned (0, None, None)
        end
    end.



(** The store after newlines were written at the positions [ps], in order. *)
Definition writeNewlines (ps : list nat) (m : store) : store :=
  fold_left (fun m p => <[p := newline]> m) ps m.

(** The runes of a text that are not white space. *)
Definition inkOf `{GoText} (rs : list rune) : list rune :=
  List.filter (fun r => negb (IsSpace r)) rs.

Section WithText.
Context {text : GoText}.

(** [append(content, '\n')] for the content [m[0:n]]: in place when the
    array has room behind the content. *)
Definition appendNewline (m : store) (n : nat) : bytes_ref * store :=
  if decide (n < length m)%nat
  then (InCaller 0 (n + 1), <[n := newline]> m)
  else (Fresh (read m 0 n ++ [newline]), m).

(** The body of the loop of [chunkSingleLine]. *)
Definition single_body (opts : ChunkerOptions) (len : Z) (s : loop_state) : step_result :=
  let end0 := Int64.add (pos s) (MaxSize opts) in
  let end1 := if end0 >? len then len else end0 in
  match slice_expr (length (mem s)) (pos s) end1 with
  | None => Panic
  | Some (off, n) =>
      let '(c, m1) := newChunk (mem s) off n in
      let chunks1 := chunks s ++ [c] in
      let pos1 := Int64.add (pos s) (Int64.sub (MaxSize opts) (Overlap opts)) in
      let pos2 := if pos1 <=? 0 then 1 else pos1 in
      if Int64.sub len pos2 <=? Overlap opts
      then
        if pos2 <? len
        then
          match slice_expr (length m1) pos2 len with
          | None => Panic
          | Some (off2, n2) =>
              let '(c2, m2) := newChunk m1 off2 n2 in
              Break (mkState m2 pos2 (chunks1 ++ [c2]))
          end
        else Break (mkState m1 pos2 chunks1)
      else Next (mkState m1 pos2 chunks1)
  end.

Fixpoint single_loop (fuel : nat) (opts : ChunkerOptions) (len : Z) (s : loop_state)
  : option (outcome loop_state) :=
  match fuel with
  | O => None
  | S fuel' =>
      if pos s <? len
      then match single_body opts len s with
           | Next s' => single_loop fuel' opts len s'
           | Break s' => Some (Returned s')
           | Panic => Some Panicked
           end
      else Some (Returned s)
  end.

(** [chunkSingleLine] up to its [return], with the fuel for the loop;
    [None] when the loop is still running as the fuel runs out. *)
Definition chunkSingleLine_run (fuel : nat) (opts : ChunkerOptions) (content : ByteSlice)
  : option (outcome loop_state) :=
  let m := elems content ++ room content in
  let len := Z.of_nat (length (elems content)) in
  if len <=? MaxSize opts
  then let '(r, m1) := appendNewline m (length (elems content)) in
       Some (Returned
               (mkState m1 0 [mkRaw r 1 1 (countTokens (read m1 0 (length (elems content))))]))
  else single_loop fuel opts len (mkState m 0 []).

(** [func (c *Chunker) chunkSingleLine(content []byte) ([]types.Chunk, error)]. *)
Definition chunkSingleLine (opts : ChunkerOptions) (content : ByteSlice)
  : option (outcome (list types.Chunk * error)) :=
  option_map result_of (chunkSingleLine_run (S (length (elems content))) opts content).

End WithText.

End chunker.

(** ** Package [types]: what the processor works on *)

Module ptypes.

Record FileEntry : Type := mkFileEntry {
  Path : string;
  Size : Z;
  ModTime : Z;
  IsSelected : bool;
  IsBinary : bool;
  Language : string
}.

Record ProcessorOptions : Type := mkProcessorOptions {
  MaxChunkSize : Z;
  ChunkOverlap : Z;
  MaxTokens : Z;
  StripComments : bool
}.

(** A [nil] slice is the empty list. *)
Record ProcessedContent : Type := mkProcessedContent {
  Entry : FileEntry;
  Content : list byte;
  Chunks : list types.Chunk
}.

End ptypes.

(** ** Package [processor]: the processor *)

Module proc.
Import ptypes.

Definition DefaultChunkSize : Z := 4096.

(** The language detector holds three tables that are filled once and
    never written again; the processor is its options. *)
Record Processor : Type := mkProcessor { opts : ProcessorOptions }.

(** [NewLanguageDetector] fills the tables and returns [ld, nil]. *)
Definition NewLanguageDetector : unit * error := (tt, None).

Definition with_MaxChunkSize (o : ProcessorOptions) (n : Z) : ProcessorOptions :=
  mkProcessorOptions n (ChunkOverlap o) (MaxTokens o) (StripComments o).
Definition with_ChunkOverlap (o : ProcessorOptions) (n : Z) : ProcessorOptions :=
  mkProcessorOptions (MaxChunkSize o) n (MaxTokens o) (StripComments o).
Definition with_MaxTokens (o : ProcessorOptions) (n : Z) : ProcessorOptions :=
  mkProcessorOptions (MaxChunkSize o) (ChunkOverlap o) n (StripComments o).
Definition with_StripComments (o : ProcessorOptions) (b : bool) : ProcessorOptions :=
  mkProcessorOptions (MaxChunkSize o) (ChunkOverlap o) (MaxTokens o) b.

Definition with_Language (e : FileEntry) (l : string) : FileEntry :=
  mkFileEntry (Path e) (Size e) (ModTime e) (IsSelected e) (IsBinary e) l.

(** [func New(opts types.ProcessorOptions)], which returns the processor
    and an error. *)
Definition New (o : ProcessorOptions) : option Processor * error :=
  let o := if MaxChunkSize o <=? 0 then with_MaxChunkSize o DefaultChunkSize else o in
  match NewLanguageDetector with
  | (_, Some err) => (None, Some ("creating language detector: " ++ err)%string)
  | (_, None) => (Some (mkProcessor o), None)
  end.

(** [func (p *Processor) Configure(opts types.ProcessorOptions)]: the
    processor after the call. *)
Definition Configure (p : Processor) (o : ProcessorOptions) : Processor :=
  let po := opts p in
  let po := if MaxChunkSize o >? 0 then with_MaxChunkSize po (MaxChunkSize o) else po in
  let po := if ChunkOverlap o >=? 0 then with_ChunkOverlap po (ChunkOverlap o) else po in
  let po := if MaxTokens o >? 0 then with_MaxTokens po (MaxTokens o) else po in
  mkProcessor (with_StripComments po (StripComments o)).

(** [func (p *Processor) ShouldProcess(entry types.FileEntry) bool]. *)
Definition ShouldProcess (p : Processor) (entry : FileEntry) : bool :=
  if IsBinary entry then false
  else if Size entry =? 0 then false
  else if (MaxTokens (opts p) >? 0) && (Size entry >? Int64.wrap (MaxTokens (opts p) * 4))
  then false
  else true.

Definition chunkerOptions (p : Processor) : processor.ChunkerOptions :=
  processor.mkChunkerOptions (MaxChunkSize (opts p)) (ChunkOverlap (opts p))
    (MaxTokens (opts p)) true.

Section WithText.
Context {text : GoText}.

(** [createChunks] up to the [return] of [Chunk]. *)
Definition createChunks_run (p : Processor) (content : processor.ByteSlice)
  : option (outcome processor.loop_state) :=
  processor.Chunk_run (S (length (processor.elems content))) (chunkerOptions p) content.


(** What [Process] calls outside the chunker: [os.ReadFile], the language
    detector and the comment stripper of the language. A slice they return
    comes with the room behind it in its array. *)
Section WithFiles.
Variable ReadFile : string -> processor.ByteSlice * error.
Variable DetectLanguage : string -> list byte -> string * error.
Variable stripComments : list byte -> string -> processor.ByteSlice * error.

(** [func (p *Processor) Process(entry types.FileEntry)
    (types.ProcessedContent, error)]. The content it returns is the slice
    it chunked, read after the chunker has run. *)
Definition Process (p : Processor) (entry : FileEntry)
  : option (outcome (ProcessedContent * error)) :=
  let zero := mkProcessedContent (mkFileEntry "" 0 0 false false "") [] [] in
  if negb (ShouldProcess p entry)
  then Some (Returned (mkProcessedContent entry [] [], None))
  else
    match ReadFile (Path entry) with
    | (_, Some err) => Some (Returned (zero, Some ("reading file: " ++ err)%string))
    | (content, None) =>
        let entry :=
          if String.eqb (Language entry) ""
          then match DetectLanguage (Path entry) (processor.elems content) with
               | (_, Some _) => with_Language entry "unknown"
               | (lang, None) => with_Language entry lang
               end
          else entry in
        let processed :=
          if StripComments (opts p)
          then match stripComments (processor.elems content) (Language entry) with
               | (stripped, None) => stripped
               | (_, Some _) => content
               end
          else content in
        if Z.of_nat (length (processor.elems content)) >? MaxChunkSize (opts p)
        then
          match createChunks_run p processed with
          | None => None
          | Some Panicked => Some Panicked
          | Some (Returned s) =>
              match processor.result_of (Returned s) with
              | Returned (chunks, Some err) =>
                  Some (Returned (zero, Some ("creating chunks: " ++ err)%string))
              | Returned (chunks, None) =>
                  Some (Returned
                          (mkProcessedContent entry
                             (take (length (processor.elems processed)) (processor.mem s))
                             chunks,
                           None))
              | Panicked => Some Panicked
              end
          end
        else Some (Returned (mkProcessedContent entry (processor.elems processed) [], None))
    end.

End WithFiles.

End WithText.

End proc.

(** ** Package [processor]: stripping comments *)

Module language.
Import processor.

(** [strings.HasPrefix]. *)
Fixpoint hasPrefix (s prefix : list byte) {struct prefix} : bool :=
  match prefix, s with
  | [], _ => true
  | _ :: _, [] => false
  | p :: prefix', b :: s' => Byte.eqb b p && hasPrefix s' prefix'
  end.

(** [strings.Index]: the index of the first [sep] in [s], [-1] when there
    is none. *)
Fixpoint Index (s sep : list byte) : Z :=
  if hasPrefix s sep then 0
  else match s with
       | [] => -1
       | _ :: s' => let i := Index s' sep in if i <? 0 then -1 else i + 1
       end.

Definition slashes : list byte := ["/"; "/"]%byte.
Definition opening : list byte := ["/"; "*"]%byte.
Definition closing : list byte := ["*"; "/"]%byte.

(** A byte of the cutset [" \t"]. *)
Definition blankByte (b : byte) : bool := Byte.eqb b " "%byte || Byte.eqb b x09.

(** [strings.TrimLeft(line, " \t")]. *)
Fixpoint TrimLeft (line : list byte) : list byte :=
  match line with
  | [] => []
  | b :: rest => if blankByte b then TrimLeft rest else line
  end.

(** [func getIndentation(line string) string]. *)
Definition getIndentation (line : list byte) : list byte :=
  take (length line - length (TrimLeft line)) line.

(** [bytes.TrimRight(s, "\n")]. *)
Fixpoint TrimRight (s : list byte) : list byte :=
  match s with
  | [] => []
  | b :: rest =>
      match TrimRight rest with
      | [] => if Byte.eqb b newline then [] else [b]
      | rest' => b :: rest'
      end
  end.

Definition isEmpty (s : list byte) : bool :=
  match s with
  | [] => true
  | _ :: _ => false
  end.

(** The variables of the loop of [StripComments]. *)
Record state : Type := mkState {
  result : list byte;
  inMultiLineComment : bool;
  lastLineWasEmpty : bool
}.

(** Where a part of the loop body leaves: at a [continue], or on to the
    next part with the line as it is by then. *)
Inductive flow : Type :=
| Continue (st : state)
| Go (st : state) (line : list byte).

Section WithText.
Context {text : GoText}.

(** [if !lastLineWasEmpty { result.WriteString("\n"); lastLineWasEmpty = true }]. *)
Definition emptyLine (st : state) : state :=
  if negb (lastLineWasEmpty st)
  then mkState (result st ++ [newline]) (inMultiLineComment st) true
  else st.

(** [if inMultiLineComment { ... }]. *)
Definition closeComment (originalIndent : list byte) (st : state) (line : list byte) : flow :=
  if inMultiLineComment st
  then
    let idx := Index line closing in
    if 0 <=? idx
    then
      let st := mkState (result st) false (lastLineWasEmpty st) in
      let line := originalIndent ++ TrimSpace (drop (Z.to_nat (idx + 2)) line) in
      if isEmpty (TrimSpace line) then Continue st else Go st line
    else Continue st
  else Go st line.

(** [if idx := strings.Index(line, "/*"); idx >= 0 { ... }]. *)
Definition openComment (originalIndent : list byte) (st : state) (line : list byte) : flow :=
  let idx := Index line opening in
  if 0 <=? idx
  then
    let st := mkState (result st) true (lastLineWasEmpty st) in
    let beforeComment := TrimSpace (take (Z.to_nat idx) line) in
    if isEmpty beforeComment then Continue st else Go st (originalIndent ++ beforeComment)
  else Go st line.

(** [if idx := strings.Index(line, "//"); idx >= 0 { ... }]. *)
Definition lineComment (originalIndent : list byte) (st : state) (line : list byte) : flow :=
  let idx := Index line slashes in
  if 0 <=? idx
  then
    let beforeComment := TrimSpace (take (Z.to_nat idx) line) in
    if isEmpty beforeComment then Continue st else Go st (originalIndent ++ beforeComment)
  else Go st line.

(** The end of the loop body: an empty line, or the line written. *)
Definition writeLine (st : state) (line : list byte) : state :=
  if isEmpty (TrimSpace line) then emptyLine st
  else
    let r := if (0 <? length (result st))%nat then result st ++ [newline] else result st in
    mkState (r ++ line) (inMultiLineComment st) false.

(** The body of [for scanner.Scan() { ... }] for the line [scanner.Text()]. *)
Definition stripLine (st : state) (line : list byte) : state :=
  let originalIndent := getIndentation line in
  let trimmedLine := TrimSpace line in
  if isEmpty trimmedLine then emptyLine st
  else
    match closeComment originalIndent st line with
    | Continue st => st
    | Go st line =>
        match openComment originalIndent st line with
        | Continue st => st
        | Go st line =>
            match lineComment originalIndent st line with
            | Continue st => st
            | Go st line => writeLine st line
            end
        end
    end.

(** [func (s *GenericCommentStripper) StripComments(content []byte)
    ([]byte, error)], for the lines the [bufio.Scanner] over the content
    yields and the error it ends with. *)
Definition StripComments (lines : list (list byte)) (scanErr : error) : list byte * error :=
  let st := fold_left stripLine lines (mkState [] false false) in
  if (0 <? length (result st))%nat
  then (TrimRight (result st), scanErr)
  else (result st, scanErr).

End WithText.

End language.

(** ** Package [scanner]: configuring a scanner *)

Module scanopts.
Import scanner.

(** An option one of the four constructors of the package makes. *)
Inductive standard `{GoText} `{GoPath} : Option -> Prop :=
| standard_RootDir dir : standard (WithRootDir dir)
| standard_IgnorePattern patterns : standard (WithIgnorePattern patterns)
| standard_MaxFileSize size : standard (WithMaxFileSize size)
| standard_MaxFiles count : standard (WithMaxFiles count).

Section WithLibrary.
Context {text : GoText} {fpath : GoPath}.

(** [func (s *Scanner) Configure(opts ...Option) error]: the scanner as
    the call leaves it, and the error. *)
Fixpoint Configure (os : list Option) (s : Scanner) : Scanner * error :=
  match os with
  | [] => (s, None)
  | opt :: rest =>
      match opt s with
      | (s', Some err) => (s', Some ("configuring scanner: " ++ err)%string)
      | (s', None) => Configure rest s'
      end
  end.

(** [func (s *Scanner) Scan(opts types.ScanOptions)] up to the start of
    the walk: the options the walk reads. *)
Definition Scan (s : Scanner) (o : types.ScanOptions) : Scanner :=
  let s := if negb (String.eqb (types.RootDir o) "")
           then mkScanner (with_RootDir (opts s) (types.RootDir o)) else s in
  let s := if types.MaxFileSize o >? 0
           then mkScanner (with_MaxFileSize (opts s) (types.MaxFileSize o)) else s in
  let s := if (0 <? length (types.IgnorePattern o))%nat
           then mkScanner (with_IgnorePattern (opts s) (types.IgnorePattern o)) else s in
  let s := if types.MaxFiles o >? 0
           then mkScanner (with_MaxFiles (opts s) (types.MaxFiles o)) else s in
  s.

(** [func DefaultOptions() []Option]. *)
Definition DefaultOptions : list Option :=
  [ WithRootDir ".";
    WithMaxFileSize (Z.shiftl 5 20);
    WithMaxFiles 1000;
    WithIgnorePattern
      [".git"; "node_modules"; ".idea"; "vendor"; "*.exe"; "*.dll"; "*.so";
       "*.dylib"; "*.bin"; "*.dat"]%string ].

(** The scanners a program can hold: made by [New] from options of the
    package, configured with such options, and sent to scan. *)
Inductive made : Scanner -> Prop :=
| made_New os s :
    Forall standard os -> New os = (Some s, None) -> made s
| made_Configure os s :
    made s -> Forall standard os -> made (fst (Configure os s))
| made_Scan s o :
    made s -> made (Scan s o).

End WithLibrary.

End scanopts.

(** ** Package [config] and the start of [main] *)

Module config.

Record ScannerConfig : Type := mkScannerConfig {
  IgnorePatterns : list string;
  MaxFileSize : Z;
  MaxFiles : Z
}.

Record ProcessorConfig : Type := mkProcessorConfig {
  MaxChunkSize : Z;
  ChunkOverlap : Z;
  MaxTokens : Z;
  StripComments : bool;
  DetectLanguage : bool
}.

(** The parts of [Config] that [Validate] and the constructors of the
    scanner and the processor read. *)
Record Config : Type := mkConfig {
  Scanner : ScannerConfig;
  Processor : ProcessorConfig
}.

(** [func (c *Config) Validate() error]. *)
Definition Validate (c : Config) : error :=
  if MaxFileSize (Scanner c) <? 0 then Some "maxFileSize must be non-negative"%string
  else if MaxFiles (Scanner c) <? 0 then Some "maxFiles must be non-negative"%string
  else if MaxChunkSize (Processor c) <? 0 then Some "maxChunkSize must be non-negative"%string
  else if ChunkOverlap (Processor c) <? 0 then Some "chunkOverlap must be non-negative"%string
  else if MaxTokens (Processor c) <? 0 then Some "maxTokens must be non-negative"%string
  else None.

Section WithLibrary.
Context {text : GoText} {fpath : GoPath}.

(** The scanner [main] makes from the configuration. *)
Definition main_scanner (cfg : Config) : option scanner.Scanner * error :=
  scanner.New
    [ scanner.WithRootDir ".";
      scanner.WithMaxFileSize (MaxFileSize (Scanner cfg));
      scanner.WithIgnorePattern (IgnorePatterns (Scanner cfg));
      scanner.WithMaxFiles (MaxFiles (Scanner cfg)) ].

(** The processor [main] makes from the configuration. *)
Definition main_processor (cfg : Config) : option proc.Processor * error :=
  proc.New
    (ptypes.mkProcessorOptions
       (MaxChunkSize (Processor cfg)) (ChunkOverlap (Processor cfg))
       (MaxTokens (Processor cfg)) (StripComments (Processor cfg))).

End WithLibrary.

End config.

(** ** Package [fs]: the directory tree *)

Module fs.

(** [strings.Contains]. *)
Fixpoint Contains (s substr : string) : bool :=
  String.prefix substr s
  || match s with
     | EmptyString => false
     | String _ s' => Contains s' substr
     end.

Section WithLibrary.
Context {fpath : GoPath}.
(** [filepath.Base]. *)
Variable Base : string -> string.

(** [func shouldIgnore(path string, patterns []string) bool]. *)
Fixpoint shouldIgnore (path : string) (patterns : list string) : bool :=
  match patterns with
  | [] => false
  | pattern :: rest =>
      if String.eqb pattern "" then shouldIgnore path rest
      else if Contains pattern "*"
      then
        let '(matched, bad) := Match pattern (Base path) in
        if negb bad && matched then true else shouldIgnore path rest
      else if Contains path pattern then true
      else shouldIgnore path rest
  end.

End WithLibrary.

End fs.

(** * Properties *)

(** ** 64-bit arithmetic *)

Module Int64Facts.
Import Int64.

Lemma wrap_in_range z : in_range (wrap z).
Proof.
  unfold in_range, wrap, min_int, max_int.
  pose proof (Z.mod_pos_bound (z + 2 ^ 63) (2 ^ 64) ltac:(lia)). lia.
Qed.

Lemma wrap_id z : in_range z -> wrap z = z.
Proof.
  unfold in_range, wrap, min_int, max_int. intros Hz.
  rewrite Z.mod_small by lia. lia.
Qed.

Lemma wrap_high z : max_int < z <= max_int + 2 ^ 64 -> wrap z = z - 2 ^ 64.
Proof.
  unfold wrap, max_int. intros Hz.
  replace (z + 2 ^ 63) with ((z - 2 ^ 63) + 1 * 2 ^ 64) by lia.
  rewrite Z.mod_add by lia. rewrite Z.mod_small by lia. lia.
Qed.

Lemma wrap_low z : min_int - 2 ^ 64 <= z < min_int -> wrap z = z + 2 ^ 64.
Proof.
  unfold wrap, min_int. intros Hz.
  replace (z + 2 ^ 63) with ((z + 2 ^ 64 + 2 ^ 63) + (-1) * 2 ^ 64) by lia.
  rewrite Z.mod_add by lia. rewrite Z.mod_small by lia. lia.
Qed.

Lemma wrap_le z : min_int <= z -> wrap z <= z.
Proof.
  unfold wrap, min_int. intros Hz.
  pose proof (Z.mod_le (z + 2 ^ 63) (2 ^ 64) ltac:(lia) ltac:(lia)). lia.
Qed.

Lemma wrap_wrap_add a b : wrap (a + wrap b) = wrap (a + b).
Proof.
  unfold wrap.
  replace (a + ((b + 2 ^ 63) mod 2 ^ 64 - 2 ^ 63) + 2 ^ 63)
    with (a + (b + 2 ^ 63) mod 2 ^ 64) by lia.
  rewrite Z.add_mod_idemp_r by lia. f_equal. f_equal. lia.
Qed.

(** [p + (n - p)] is [n], wrapped. *)
Lemma add_sub_cancel p n : add p (sub n p) = wrap n.
Proof.
  unfold add, sub. rewrite wrap_wrap_add. f_equal. lia.
Qed.

End Int64Facts.

(** ** The ASCII instance *)

Module Ascii7Facts.

Lemma bounds_ok s lo hi :
  Ascii7.bounds s = Some (lo, hi) -> (lo < hi <= length s)%nat.
Proof.
  unfold Ascii7.bounds.
  destruct (Nat.ltb_spec (Ascii7.leadingSpace s) (length s - Ascii7.leadingSpace (rev s)));
    intros [= <- <-]; lia.
Qed.

Definition text7 : GoText :=
  {| trimSpaceBounds := Ascii7.bounds;
     trimSpaceBounds_ok := bounds_ok;
     runesOf := Ascii7.runes;
     IsSpace := Ascii7.isSpace;
     IsGraphic := Ascii7.isGraphic;
     isBlank := Ascii7.blank |}.

Definition path7 : GoPath :=
  {| Match := fun pattern name =>
       (Ascii7.glob (list_ascii_of_string pattern) (list_ascii_of_string name), false);
     Rel := Ascii7.rel;
     Abs := Ascii7.abs |}.

End Ascii7Facts.

(** ** The chunker *)

Module ChunkerFacts.
Import processor.

Section Facts.
Context {text : GoText}.

(** *** Reading and writing the store *)

Lemma read_length m off n : length (read m off n) = Nat.min n (length m - off).
Proof. unfold read. rewrite length_take, length_drop. reflexivity. Qed.

Lemma read_lookup m off n i :
  (i < n)%nat -> read m off n !! i = m !! (off + i)%nat.
Proof. intros Hi. unfold read. rewrite lookup_take_lt by lia. apply lookup_drop. Qed.

Lemma read_ext m m' off n :
  length m = length m' ->
  (forall q, (off <= q < off + n)%nat -> m !! q = m' !! q) ->
  read m off n = read m' off n.
Proof.
  intros Hlen Hq. apply list_eq. intros i.
  destruct (decide (i < n)%nat) as [Hi|Hi].
  - rewrite !read_lookup by lia. apply Hq. lia.
  - unfold read. rewrite !lookup_take_ge by lia. reflexivity.
Qed.

Lemma read_app_l a b off n :
  (off + n <= length a)%nat -> read (a ++ b) off n = read a off n.
Proof.
  intros Hn. unfold read. rewrite drop_app_le by lia.
  rewrite take_app_le; [reflexivity|]. rewrite length_drop. lia.
Qed.

Lemma read_all a : read a 0 (length a) = a.
Proof. unfold read. rewrite drop_0. apply firstn_all. Qed.

Lemma read_read m off n lo k :
  (lo + k <= n)%nat -> read (read m off n) lo k = read m (off + lo) k.
Proof.
  intros Hk. apply list_eq. intros i.
  destruct (decide (i < k)%nat) as [Hi|Hi].
  - rewrite !read_lookup by lia. f_equal. lia.
  - unfold read at 1 3. rewrite !lookup_take_ge by lia. reflexivity.
Qed.

(** Reading up to and including a byte just written. *)
Lemma read_insert_end m off k x :
  (off + k < length m)%nat ->
  read (<[(off + k)%nat := x]> m) off (k + 1) = read m off k ++ [x].
Proof.
  intros Hk. apply list_eq. intros i.
  destruct (decide (i < k)%nat) as [Hi|Hi].
  - rewrite read_lookup by lia. rewrite lookup_app_l by (rewrite read_length; lia).
    rewrite read_lookup by lia. apply list_lookup_insert_ne. lia.
  - destruct (decide (i = k)) as [->|Hne].
    + rewrite read_lookup by lia. rewrite list_lookup_insert_eq by lia.
      rewrite lookup_app_r by (rewrite read_length; lia).
      rewrite read_length. replace (k - Nat.min k (length m - off))%nat with O by lia.
      reflexivity.
    + rewrite lookup_ge_None_2.
      * symmetry. apply lookup_ge_None_2. rewrite length_app, read_length. simpl. lia.
      * rewrite read_length, length_insert. lia.
Qed.

Lemma nl_ext_refl m : nl_ext m m.
Proof. split; auto. Qed.

Lemma nl_ext_trans m1 m2 m3 : nl_ext m1 m2 -> nl_ext m2 m3 -> nl_ext m1 m3.
Proof. intros [L1 N1] [L2 N2]. split; [congruence | auto]. Qed.

Lemma nl_ext_insert m p : nl_ext m (<[p := newline]> m).
Proof.
  split; [apply length_insert|]. intros q Hq.
  destruct (decide (p = q)) as [->|Hne].
  - apply list_lookup_insert_eq. apply lookup_lt_Some in Hq. exact Hq.
  - rewrite list_lookup_insert_ne by exact Hne. exact Hq.
Qed.

Lemma ref_ok_ext m m' r : nl_ext m m' -> ref_ok m r -> ref_ok m' r.
Proof.
  intros [L N]. destruct r as [off n|bs]; simpl; [|auto].
  intros (H1 & H2 & H3). repeat split; [exact H1 | lia | auto].
Qed.

Lemma deref_ok m r : ref_ok m r ->
  exists b, deref m r = b ++ [newline] /\ length (deref m r) = ref_len r.
Proof.
  destruct r as [off n|bs]; simpl.
  - intros (H1 & H2 & H3). exists (read m off (n - 1)). split.
    + apply list_eq. intros i. destruct (decide (i < n - 1)%nat) as [Hi|Hi].
      * rewrite lookup_app_l by (rewrite read_length; lia).
        rewrite !read_lookup by lia. reflexivity.
      * destruct (decide (i = n - 1)%nat) as [->|Hne].
        -- rewrite lookup_app_r by (rewrite read_length; lia).
           rewrite read_length, read_lookup by lia.
           replace (n - 1 - Nat.min (n - 1) (length m - off))%nat with O by lia.
           simpl. rewrite <- H3. f_equal. lia.
        -- rewrite lookup_ge_None_2 by (rewrite read_length; lia).
           symmetry. apply lookup_ge_None_2. rewrite length_app, read_length. simpl. lia.
    + rewrite read_length. lia.
  - intros [b ->]. exists b. split; reflexivity.
Qed.

(** *** One chunk *)

(** What [appendTrimmed] leaves: nothing written, the newline written in
    place, or a copy. *)
Lemma appendTrimmed_cases m off n r m' :
  appendTrimmed m off n = (r, m') ->
  (trimSpaceBounds (read m off n) = None /\ r = Fresh [newline] /\ m' = m)
  \/ exists lo hi,
       trimSpaceBounds (read m off n) = Some (lo, hi)
       /\ (lo < hi <= length (read m off n))%nat
       /\ (((off + hi < length m)%nat
            /\ r = InCaller (off + lo) (hi - lo + 1)
            /\ m' = <[(off + hi)%nat := newline]> m)
           \/ ((length m <= off + hi)%nat
               /\ r = Fresh (read m (off + lo) (hi - lo) ++ [newline])
               /\ m' = m)).
Proof.
  unfold appendTrimmed.
  destruct (trimSpaceBounds (read m off n)) as [[lo hi]|] eqn:Eb.
  - pose proof (trimSpaceBounds_ok _ _ _ Eb) as Hb.
    destruct (decide (off + hi < length m)%nat) as [Hlt|Hge]; intros [= <- <-];
      right; exists lo, hi; (split; [reflexivity|]); (split; [exact Hb|]).
    + left. auto.
    + right. split; [lia | auto].
  - intros [= <- <-]. left. auto.
Qed.

Lemma appendTrimmed_ok m off n r m' :
  appendTrimmed m off n = (r, m') ->
  nl_ext m m' /\ ref_ok m' r /\ (ref_len r <= n + 1)%nat.
Proof.
  intros E. destruct (appendTrimmed_cases _ _ _ _ _ E)
    as [(_ & -> & ->) | (lo & hi & _ & Hb & [(Hlt & -> & ->) | (Hge & -> & ->)])].
  - split; [apply nl_ext_refl|]. split; [exists []; reflexivity | simpl; lia].
  - rewrite read_length in Hb.
    split; [apply nl_ext_insert|]. split; simpl.
    + rewrite length_insert. repeat split; [lia | lia |].
      replace (off + lo + (hi - lo + 1) - 1)%nat with (off + hi)%nat by lia.
      apply list_lookup_insert_eq. exact Hlt.
    + lia.
  - rewrite read_length in Hb.
    split; [apply nl_ext_refl|]. split; simpl.
    + eexists; reflexivity.
    + rewrite length_app, read_length. simpl. lia.
Qed.

(** A write lands behind the start of the window and not behind its end. *)
Lemma appendTrimmed_frame m off n r m' q :
  appendTrimmed m off n = (r, m') ->
  (q <= off \/ off + n < q)%nat -> m' !! q = m !! q.
Proof.
  intros E Hq. destruct (appendTrimmed_cases _ _ _ _ _ E)
    as [(_ & _ & ->) | (lo & hi & _ & Hb & [(Hlt & _ & ->) | (_ & _ & ->)])];
    try reflexivity.
  rewrite read_length in Hb. apply list_lookup_insert_ne. lia.
Qed.

Lemma newChunk_inv m off n c m' :
  newChunk m off n = (c, m') ->
  appendTrimmed m off n = (rContent c, m')
  /\ rStartLine c = 1 /\ rEndLine c = 1 /\ rTokenCount c = countTokens (read m' off n).
Proof.
  unfold newChunk. destruct (appendTrimmed m off n) as [r m1].
  intros [= <- <-]. simpl. auto.
Qed.

(** *** A sequence of chunks *)

Lemma emit_app ws1 ws2 m :
  emit (ws1 ++ ws2) m =
  let '(cs1, m1) := emit ws1 m in
  let '(cs2, m2) := emit ws2 m1 in
  (cs1 ++ cs2, m2).
Proof.
  revert m. induction ws1 as [|[off n] ws1 IH]; intros m; simpl.
  - destruct (emit ws2 m). reflexivity.
  - destruct (newChunk m off n) as [c m1]. rewrite IH.
    destruct (emit ws1 m1) as [cs1 m2]. destruct (emit ws2 m2). reflexivity.
Qed.

Lemma emit_ok ws : forall m cs m',
  emit ws m = (cs, m') ->
  nl_ext m m'
  /\ Forall2 (fun w c => ref_ok m' (rContent c) /\ (ref_len (rContent c) <= snd w + 1)%nat) ws cs.
Proof.
  induction ws as [|[off n] ws IH]; intros m cs m'; simpl.
  - intros [= <- <-]. split; [apply nl_ext_refl | constructor].
  - destruct (newChunk m off n) as [c m1] eqn:Ec.
    destruct (emit ws m1) as [cs1 m2] eqn:Ee. intros [= <- <-].
    destruct (newChunk_inv _ _ _ _ _ Ec) as (Ea & _).
    destruct (appendTrimmed_ok _ _ _ _ _ Ea) as (X1 & X2 & X3).
    destruct (IH _ _ _ Ee) as (Y1 & Y2).
    split; [eapply nl_ext_trans; eauto|].
    constructor; [|exact Y2]. split; [eapply ref_ok_ext; eauto | exact X3].
Qed.

(** Chunks cut from windows at or behind [b] leave the store up to [b] alone. *)
Lemma emit_frame ws : forall m cs m' b q,
  emit ws m = (cs, m') ->
  Forall (fun w => (b <= fst w)%nat) ws ->
  (q <= b)%nat -> m' !! q = m !! q.
Proof.
  induction ws as [|[off n] ws IH]; intros m cs m' b q; simpl.
  - intros [= <- <-] _ _. reflexivity.
  - destruct (newChunk m off n) as [c m1] eqn:Ec.
    destruct (emit ws m1) as [cs1 m2] eqn:Ee. intros [= <- <-] Hall Hq.
    inversion Hall as [|? ? Hw Hws]; subst. simpl in Hw.
    destruct (newChunk_inv _ _ _ _ _ Ec) as (Ea & _).
    rewrite (IH _ _ _ b q Ee Hws Hq).
    eapply appendTrimmed_frame; [exact Ea | lia].
Qed.

(** *** The loop is its plan, emitted *)

Lemma window_end_le opts contentLen p :
  0 <= contentLen -> Int64.add p (chunkSizeAt opts contentLen p) <= contentLen.
Proof.
  intros Hlen. unfold chunkSizeAt.
  destruct (Z.gtb_spec (Int64.add p (MaxSize opts)) contentLen) as [Hgt|Hle].
  - rewrite Int64Facts.add_sub_cancel. apply Int64Facts.wrap_le.
    unfold Int64.min_int. lia.
  - exact Hle.
Qed.

Lemma slice_expr_cap cap n lo hi :
  hi <= Z.of_nat n -> (n <= cap)%nat -> slice_expr cap lo hi = slice_expr n lo hi.
Proof.
  intros Hhi Hn. unfold slice_expr.
  replace (hi <=? Z.of_nat cap) with true by (symmetry; apply Z.leb_le; lia).
  replace (hi <=? Z.of_nat n) with true by (symmetry; apply Z.leb_le; lia).
  reflexivity.
Qed.

Lemma newChunk_length m off n c m' : newChunk m off n = (c, m') -> length m' = length m.
Proof.
  intros Ec. destruct (newChunk_inv _ _ _ _ _ Ec) as (Ea & _).
  destruct (appendTrimmed_ok _ _ _ _ _ Ea) as ([L _] & _). exact L.
Qed.

Lemma emit_length ws m cs m' : emit ws m = (cs, m') -> length m' = length m.
Proof. intros E. destruct (emit_ok _ _ _ _ E) as ([L _] & _). exact L. Qed.

Lemma loop_body_plan opts contentLen s :
  0 <= contentLen <= Z.of_nat (length (mem s)) ->
  loop_body opts contentLen s =
  match plan_body opts contentLen (pos s) with
  | PNext w pos1 =>
      let '(cs, m1) := emit [w] (mem s) in Next (mkState m1 pos1 (chunks s ++ cs))
  | PBreak ws pos1 =>
      let '(cs, m1) := emit ws (mem s) in Break (mkState m1 pos1 (chunks s ++ cs))
  | PPanic => Panic
  end.
Proof.
  intros Hlen. unfold loop_body, plan_body.
  rewrite (slice_expr_cap (length (mem s)) (Z.to_nat contentLen));
    [| rewrite Z2Nat.id by lia; apply window_end_le; lia | lia].
  destruct (slice_expr (Z.to_nat contentLen) (pos s) _) as [[off n]|]; [|reflexivity].
  simpl emit. destruct (newChunk (mem s) off n) as [c m1] eqn:Ec.
  pose proof (newChunk_length _ _ _ _ _ Ec) as L1.
  destruct (_ && _).
  - rewrite (slice_expr_cap (length m1) (Z.to_nat contentLen)) by lia.
    destruct (slice_expr (Z.to_nat contentLen) _ contentLen) as [[off2 n2]|]; [|reflexivity].
    simpl snd. destruct (0 <? n2)%nat.
    + simpl emit. rewrite Ec. destruct (newChunk m1 off2 n2) as [c2 m2].
      rewrite <- app_assoc. reflexivity.
    + simpl emit. rewrite Ec. reflexivity.
  - simpl emit. rewrite Ec. reflexivity.
Qed.

Theorem loop_plan opts contentLen : forall fuel s,
  0 <= contentLen <= Z.of_nat (length (mem s)) ->
  loop fuel opts contentLen s =
  match plan fuel opts contentLen (pos s) with
  | None => None
  | Some Panicked => Some Panicked
  | Some (Returned (ws, q)) =>
      let '(cs, m1) := emit ws (mem s) in
      Some (Returned (mkState m1 q (chunks s ++ cs)))
  end.
Proof.
  induction fuel as [|fuel IH]; intros s Hlen; simpl; [reflexivity|].
  destruct (pos s <? contentLen).
  - rewrite loop_body_plan by exact Hlen.
    destruct (plan_body opts contentLen (pos s)) as [[off n] pos1|ws pos1|].
    + simpl emit. destruct (newChunk (mem s) off n) as [c m1] eqn:Ec.
      rewrite IH by (simpl; rewrite (newChunk_length _ _ _ _ _ Ec); exact Hlen).
      simpl. destruct (plan fuel opts contentLen pos1) as [[[ws q]|]|]; try reflexivity.
      simpl emit. rewrite Ec. destruct (emit ws m1) as [cs m2].
      rewrite <- app_assoc. reflexivity.
    + destruct (emit ws (mem s)). reflexivity.
    + reflexivity.
  - simpl. rewrite app_nil_r. destruct s; reflexivity.
Qed.

(** A call is its plan, emitted and read in the store the run leaves. *)
Theorem Chunk_run_emit fuel opts content :
  option_map result_of (Chunk_run fuel opts content) =
  match Chunk_plan_at fuel opts (length (elems content)) with
  | None => None
  | Some Panicked => Some Panicked
  | Some (Returned ws) =>
      let '(cs, m1) := emit ws (elems content ++ room content) in
      Some (Returned (map (publish m1) cs, None))
  end.
Proof.
  unfold Chunk_run, Chunk_plan_at.
  destruct (length (elems content) =? 0)%nat; [reflexivity|].
  destruct (_ && _).
  - simpl emit. destruct (newChunk _ 0 _) as [c m1]. reflexivity.
  - rewrite loop_plan by (simpl; rewrite length_app; lia).
    simpl pos. simpl mem. simpl chunks.
    destruct (plan _ opts _ 0) as [[[ws q]|]|]; simpl; try reflexivity.
    destruct (emit ws _) as [cs m1]. reflexivity.
Qed.

Corollary Chunk_emit opts content :
  Chunk opts content =
  match Chunk_plan opts (length (elems content)) with
  | None => None
  | Some Panicked => Some Panicked
  | Some (Returned ws) =>
      let '(cs, m1) := emit ws (elems content ++ room content) in
      Some (Returned (map (publish m1) cs, None))
  end.
Proof. apply Chunk_run_emit. Qed.

(** *** The plan: positions and windows *)

Lemma slice_expr_Some cap lo hi off n :
  slice_expr cap lo hi = Some (off, n) <->
  (0 <= lo <= hi /\ hi <= Z.of_nat cap) /\ off = Z.to_nat lo /\ n = Z.to_nat (hi - lo).
Proof.
  unfold slice_expr.
  destruct (Z.leb_spec 0 lo), (Z.leb_spec lo hi), (Z.leb_spec hi (Z.of_nat cap)); simpl;
    split; try (intros [= <- <-]; split; [lia | auto]); try (intros (? & ? & ?); lia);
    try discriminate.
  all: intros (_ & -> & ->); reflexivity.
Qed.

Lemma slice_expr_neg cap lo hi : lo < 0 -> slice_expr cap lo hi = None.
Proof.
  intros Hlo. unfold slice_expr.
  replace (0 <=? lo) with false by (symmetry; apply Z.leb_gt; exact Hlo). reflexivity.
Qed.

Lemma advanceOf_range opts c : 1 <= advanceOf opts c <= Int64.max_int.
Proof.
  unfold advanceOf. pose proof (Int64Facts.wrap_in_range (c - Overlap opts)) as [_ Hr].
  fold (Int64.sub c (Overlap opts)) in Hr.
  destruct (Z.ltb_spec (Int64.sub c (Overlap opts)) 1); unfold Int64.max_int in *; lia.
Qed.

(** The position after a step is strictly ahead, unless the sum wrapped to
    a negative one. *)
Lemma next_pos_progress opts c p :
  0 <= p <= Int64.max_int ->
  let q := Int64.add p (advanceOf opts c) in
  Int64.in_range q /\ (q < 0 \/ p < q).
Proof.
  intros Hp q. split; [apply Int64Facts.wrap_in_range|].
  pose proof (advanceOf_range opts c) as Ha. subst q. unfold Int64.add.
  destruct (Z_le_gt_dec (p + advanceOf opts c) Int64.max_int) as [Hs|Hb].
  - rewrite Int64Facts.wrap_id by (unfold Int64.in_range, Int64.min_int in *; lia). lia.
  - rewrite Int64Facts.wrap_high by (unfold Int64.max_int in *; lia).
    unfold Int64.max_int in *. lia.
Qed.

Lemma plan_body_neg opts contentLen p : p < 0 -> plan_body opts contentLen p = PPanic.
Proof. intros Hp. unfold plan_body. rewrite slice_expr_neg by exact Hp. reflexivity. Qed.

Lemma plan_body_PNext opts contentLen p w q :
  plan_body opts contentLen p = PNext w q ->
  0 <= p /\ q = Int64.add p (advanceOf opts (chunkSizeAt opts contentLen p)).
Proof.
  unfold plan_body.
  destruct (slice_expr _ p _) as [[off n]|] eqn:Es; [|discriminate].
  apply slice_expr_Some in Es. destruct Es as ((Hp & _) & _).
  destruct (_ && _).
  - destruct (slice_expr _ _ contentLen) as [w2|]; [|discriminate].
    destruct (0 <? snd w2)%nat; discriminate.
  - intros [= <- <-]. split; [lia | reflexivity].
Qed.

(** With more fuel than [dist] the plan is complete, and the same whatever
    the fuel. *)
Lemma plan_total opts contentLen : forall n p,
  Int64.in_range p -> (dist contentLen p <= n)%nat ->
  exists r, forall fuel, (n < fuel)%nat -> plan fuel opts contentLen p = Some r.
Proof.
  induction n as [|n IH]; intros p Hr Hd.
  - destruct (Z.ltb_spec p contentLen) as [Hlt|Hge].
    + assert (p < 0) as Hneg.
      { unfold dist in Hd. destruct (Z.ltb_spec p 0); lia. }
      exists Panicked. intros [|fuel] Hf; [lia|]. simpl.
      replace (p <? contentLen) with true by (symmetry; apply Z.ltb_lt; exact Hlt).
      rewrite plan_body_neg by exact Hneg. reflexivity.
    + exists (Returned ([], p)). intros [|fuel] Hf; [lia|]. simpl.
      replace (p <? contentLen) with false by (symmetry; apply Z.ltb_ge; exact Hge).
      reflexivity.
  - destruct (Z.ltb_spec p contentLen) as [Hlt|Hge].
    + destruct (plan_body opts contentLen p) as [w q|ws q|] eqn:Eb.
      * destruct (plan_body_PNext _ _ _ _ _ Eb) as (Hp & ->).
        destruct (next_pos_progress opts (chunkSizeAt opts contentLen p) p) as (Hq & Hprog).
        { destruct Hr. lia. }
        set (q := Int64.add p (advanceOf opts (chunkSizeAt opts contentLen p))) in *.
        destruct (IH q Hq) as [r Hplan].
        { unfold dist in *. destruct (Z.ltb_spec p 0); [lia|].
          destruct (Z.ltb_spec q 0); lia. }
        exists (match r with Returned (ws, q') => Returned (w :: ws, q') | Panicked => Panicked end).
        intros [|fuel] Hf; [lia|]. simpl.
        replace (p <? contentLen) with true by (symmetry; apply Z.ltb_lt; exact Hlt).
        rewrite Eb. rewrite Hplan by lia. destruct r as [[ws q']|]; reflexivity.
      * exists (Returned (ws, q)). intros [|fuel] Hf; [lia|]. simpl.
        replace (p <? contentLen) with true by (symmetry; apply Z.ltb_lt; exact Hlt).
        rewrite Eb. reflexivity.
      * exists Panicked. intros [|fuel] Hf; [lia|]. simpl.
        replace (p <? contentLen) with true by (symmetry; apply Z.ltb_lt; exact Hlt).
        rewrite Eb. reflexivity.
    + exists (Returned ([], p)). intros [|fuel] Hf; [lia|]. simpl.
      replace (p <? contentLen) with false by (symmetry; apply Z.ltb_ge; exact Hge).
      reflexivity.
Qed.

Lemma Chunk_plan_total opts n :
  exists r, forall fuel, (n < fuel)%nat -> Chunk_plan_at fuel opts n = Some r.
Proof.
  unfold Chunk_plan_at.
  destruct (n =? 0)%nat; [eexists; reflexivity|].
  destruct (_ && _); [eexists; reflexivity|].
  destruct (plan_total opts (Z.of_nat n) n 0) as [r Hr].
  - unfold Int64.in_range, Int64.min_int, Int64.max_int. lia.
  - unfold dist. simpl. lia.
  - exists (outcome_map fst r). intros fuel Hf. rewrite Hr by exact Hf. reflexivity.
Qed.

(** Options and lengths for which no sum or difference of the loop wraps. *)
Lemma plan_body_sane opts contentLen p :
  0 <= MaxSize opts < 2 ^ 62 -> - 2 ^ 62 <= Overlap opts <= Int64.max_int ->
  contentLen < 2 ^ 62 -> 0 <= p < contentLen ->
  let c := Z.min (MaxSize opts) (contentLen - p) in
  let q := p + Z.max 1 (c - Overlap opts) in
  chunkSizeAt opts contentLen p = c
  /\ advanceOf opts c = Z.max 1 (c - Overlap opts)
  /\ plan_body opts contentLen p =
     if (q <? contentLen) && (contentLen - q <=? Overlap opts)
     then PBreak [(Z.to_nat p, Z.to_nat c); (Z.to_nat q, Z.to_nat (contentLen - q))] q
     else PNext (Z.to_nat p, Z.to_nat c) q.
Proof.
  intros HM HO HL Hp c q. unfold Int64.max_int in HO.
  assert (chunkSizeAt opts contentLen p = c) as Ec.
  { unfold chunkSizeAt, Int64.add, Int64.sub.
    rewrite !Int64Facts.wrap_id
      by (unfold Int64.in_range, Int64.min_int, Int64.max_int; lia).
    subst c. destruct (Z.gtb_spec (p + MaxSize opts) contentLen); lia. }
  assert (advanceOf opts c = Z.max 1 (c - Overlap opts)) as Ea.
  { unfold advanceOf, Int64.sub.
    rewrite Int64Facts.wrap_id
      by (unfold Int64.in_range, Int64.min_int, Int64.max_int; subst c; lia).
    destruct (Z.ltb_spec (c - Overlap opts) 1); lia. }
  split; [exact Ec|]. split; [exact Ea|].
  unfold plan_body. rewrite Ec, Ea.
  assert (Int64.add p c = p + c) as ->.
  { unfold Int64.add. apply Int64Facts.wrap_id.
    unfold Int64.in_range, Int64.min_int, Int64.max_int; subst c; lia. }
  assert (Int64.add p (Z.max 1 (c - Overlap opts)) = q) as ->.
  { unfold Int64.add. apply Int64Facts.wrap_id.
    unfold Int64.in_range, Int64.min_int, Int64.max_int; subst c; lia. }
  assert (slice_expr (Z.to_nat contentLen) p (p + c) = Some (Z.to_nat p, Z.to_nat c)) as ->.
  { apply slice_expr_Some. subst c. repeat split; lia. }
  destruct (Z.ltb_spec q contentLen) as [Hq|Hq]; simpl; [|reflexivity].
  assert (Int64.sub contentLen q = contentLen - q) as ->.
  { unfold Int64.sub. apply Int64Facts.wrap_id.
    unfold Int64.in_range, Int64.min_int, Int64.max_int; subst q c; lia. }
  destruct (contentLen - q <=? Overlap opts); [|reflexivity].
  assert (slice_expr (Z.to_nat contentLen) q contentLen
          = Some (Z.to_nat q, Z.to_nat (contentLen - q))) as ->.
  { apply slice_expr_Some. subst q c. repeat split; lia. }
  simpl snd. replace (0 <? Z.to_nat (contentLen - q))%nat with true; [reflexivity|].
  symmetry. apply Nat.ltb_lt. lia.
Qed.

Lemma plan_returns opts contentLen :
  0 <= MaxSize opts < 2 ^ 62 -> - 2 ^ 62 <= Overlap opts <= Int64.max_int ->
  contentLen < 2 ^ 62 ->
  forall n p, 0 <= p -> (dist contentLen p <= n)%nat ->
  exists ws q, forall fuel, (n < fuel)%nat ->
    plan fuel opts contentLen p = Some (Returned (ws, q)).
Proof.
  intros HM HO HL. induction n as [|n IH]; intros p Hp Hd.
  - exists [], p. intros [|fuel] Hf; [lia|]. simpl.
    replace (p <? contentLen) with false; [reflexivity|].
    symmetry. apply Z.ltb_ge. unfold dist in Hd. destruct (Z.ltb_spec p 0); lia.
  - destruct (Z.ltb_spec p contentLen) as [Hlt|Hge].
    + destruct (plan_body_sane opts contentLen p HM HO HL (conj Hp Hlt)) as (_ & _ & Eb).
      set (c := Z.min (MaxSize opts) (contentLen - p)) in *.
      set (q := p + Z.max 1 (c - Overlap opts)) in *.
      destruct ((q <? contentLen) && (contentLen - q <=? Overlap opts)).
      * eexists _, q. intros [|fuel] Hf; [lia|]. simpl.
        replace (p <? contentLen) with true by (symmetry; apply Z.ltb_lt; exact Hlt).
        rewrite Eb. reflexivity.
      * destruct (IH q) as (ws & q' & Hplan).
        { subst q. lia. }
        { unfold dist in *. destruct (Z.ltb_spec p 0); [lia|].
          destruct (Z.ltb_spec q 0); subst q; lia. }
        exists ((Z.to_nat p, Z.to_nat c) :: ws), q'. intros [|fuel] Hf; [lia|]. simpl.
        replace (p <? contentLen) with true by (symmetry; apply Z.ltb_lt; exact Hlt).
        rewrite Eb, Hplan by lia. reflexivity.
    + exists [], p. intros [|fuel] Hf; [lia|]. simpl.
      replace (p <? contentLen) with false by (symmetry; apply Z.ltb_ge; exact Hge).
      reflexivity.
Qed.

Lemma Chunk_plan_returns opts n :
  0 <= MaxSize opts -> - 2 ^ 62 <= Overlap opts <= Int64.max_int -> Z.of_nat n < 2 ^ 62 ->
  exists ws, forall fuel, (n < fuel)%nat -> Chunk_plan_at fuel opts n = Some (Returned ws).
Proof.
  intros HM HO HL. unfold Chunk_plan_at.
  destruct (Nat.eqb_spec n 0) as [->|Hn]; [eexists; reflexivity|].
  destruct (Z.ltb_spec 0 (MaxSize opts)) as [Hpos|Hzero];
    [destruct (Z.leb_spec (Z.of_nat n) (MaxSize opts)) as [Hfit|Hbig]|]; simpl.
  - eexists; reflexivity.
  - destruct (plan_returns opts (Z.of_nat n) ltac:(lia) HO HL n 0) as (ws & q & Hr);
      [lia | unfold dist; simpl; lia |].
    exists ws. intros fuel Hf. rewrite Hr by exact Hf. reflexivity.
  - destruct (plan_returns opts (Z.of_nat n) ltac:(lia) HO HL n 0) as (ws & q & Hr);
      [lia | unfold dist; simpl; lia |].
    exists ws. intros fuel Hf. rewrite Hr by exact Hf. reflexivity.
Qed.


(** *** The content of a chunk when it is made *)

Lemma appendTrimmed_deref m off n r m' :
  appendTrimmed m off n = (r, m') ->
  deref m' r = TrimSpace (read m off n) ++ [newline].
Proof.
  intros E. unfold TrimSpace. destruct (appendTrimmed_cases _ _ _ _ _ E)
    as [(-> & -> & ->) | (lo & hi & -> & Hb & [(Hlt & -> & ->) | (Hge & -> & ->)])].
  - reflexivity.
  - pose proof Hb as Hb'. rewrite read_length in Hb'. simpl.
    replace (off + hi)%nat with (off + lo + (hi - lo))%nat by lia.
    rewrite read_insert_end by lia. f_equal.
    fold (read (read m off n) lo (hi - lo)). rewrite read_read by lia. reflexivity.
  - pose proof Hb as Hb'. rewrite read_length in Hb'. simpl. f_equal.
    fold (read (read m off n) lo (hi - lo)). rewrite read_read by lia. reflexivity.
Qed.

Lemma trimSpaceBounds_nil : trimSpaceBounds [] = None.
Proof.
  destruct (trimSpaceBounds []) as [[lo hi]|] eqn:E; [|reflexivity].
  apply trimSpaceBounds_ok in E. simpl in E. lia.
Qed.

(** An empty window gives a chunk that is a newline in an array of its own,
    and writes nothing. *)
Lemma newChunk_empty m off :
  newChunk m off 0 = (mkRaw (Fresh [newline]) 1 1 (countTokens []), m).
Proof.
  unfold newChunk, appendTrimmed, read. rewrite take_0, trimSpaceBounds_nil. reflexivity.
Qed.

Lemma emit_empty ws : forall m,
  Forall (fun w => snd w = O) ws ->
  emit ws m = (map (fun _ => mkRaw (Fresh [newline]) 1 1 (countTokens [])) ws, m).
Proof.
  induction ws as [|[off n] ws IH]; intros m Hall; simpl; [reflexivity|].
  inversion Hall as [|? ? Hn Hws]; subst. simpl in Hn. subst n.
  rewrite newChunk_empty, IH by exact Hws. reflexivity.
Qed.

(** *** Empty content and content that fits *)

(** C3. [Chunk] on empty content returns an empty sequence; on content that
    is not empty and no longer than [MaxSize] it returns exactly one chunk,
    whose content is the whole of the content with the white space around it
    trimmed, followed by a newline. (The second clause is read for the
    content the first one leaves, the non-empty one.) *)
Theorem Chunk_empty_or_fitting opts content spare :
  (content = [] -> Chunk opts (mkByteSlice content spare) = Some (Returned ([], None)))
  /\ (content <> [] -> Z.of_nat (length content) <= MaxSize opts ->
      exists tokens,
        Chunk opts (mkByteSlice content spare)
        = Some (Returned ([types.mkChunk (TrimSpace content ++ [newline]) 1 1 tokens], None))).
Proof.
  split.
  - intros ->. reflexivity.
  - intros Hne Hfit. rewrite Chunk_emit. unfold Chunk_plan, Chunk_plan_at. simpl elems.
    set (n := length content) in *.
    assert (n <> O) as Hn by (subst n; destruct content; simpl; congruence).
    replace (n =? 0)%nat with false by (symmetry; apply Nat.eqb_neq; exact Hn).
    replace (0 <? MaxSize opts) with true by (symmetry; apply Z.ltb_lt; lia).
    replace (Z.of_nat n <=? MaxSize opts) with true by (symmetry; apply Z.leb_le; lia).
    simpl andb. cbv iota. simpl emit. simpl room.
    destruct (newChunk (content ++ spare) 0 n) as [c m1] eqn:Ec.
    destruct (newChunk_inv _ _ _ _ _ Ec) as (Ea & E1 & E2 & _).
    exists (rTokenCount c). simpl map. unfold publish.
    rewrite (appendTrimmed_deref _ _ _ _ _ Ea), E1, E2.
    subst n. rewrite read_app_l by lia. rewrite read_all. reflexivity.
Qed.

(** *** A maximal size of zero *)

Lemma plan_body_zero opts contentLen p :
  MaxSize opts = 0 -> Overlap opts = 0 -> contentLen <= Int64.max_int ->
  0 <= p < contentLen ->
  plan_body opts contentLen p = PNext (Z.to_nat p, O) (p + 1).
Proof.
  intros HM HO HL Hp. unfold Int64.max_int in HL.
  assert (forall z, 0 <= z <= contentLen -> Int64.wrap z = z) as Hw.
  { intros z Hz. apply Int64Facts.wrap_id.
    unfold Int64.in_range, Int64.min_int, Int64.max_int. lia. }
  unfold plan_body, chunkSizeAt, advanceOf, Int64.add, Int64.sub. rewrite HM, HO.
  rewrite Z.add_0_r, (Hw p) by lia.
  replace (p >? contentLen) with false by (rewrite Z.gtb_ltb; symmetry; apply Z.ltb_ge; lia).
  rewrite Z.add_0_r, (Hw p) by lia. rewrite Z.sub_0_r, (Hw 0) by lia.
  change (0 <? 1) with true. cbv iota. rewrite (Hw (p + 1)) by lia.
  assert (slice_expr (Z.to_nat contentLen) p p = Some (Z.to_nat p, O)) as ->.
  { apply slice_expr_Some. rewrite Z.sub_diag. repeat split; lia. }
  destruct (Z.ltb_spec (p + 1) contentLen) as [Hlt|Hge]; [|reflexivity].
  rewrite (Hw (contentLen - (p + 1))) by lia.
  replace (contentLen - (p + 1) <=? 0) with false by (symmetry; apply Z.leb_gt; lia).
  reflexivity.
Qed.

Lemma plan_zero opts contentLen :
  MaxSize opts = 0 -> Overlap opts = 0 -> contentLen <= Int64.max_int ->
  forall n p, 0 <= p -> Z.of_nat n = contentLen - p ->
  forall fuel, (n < fuel)%nat ->
    plan fuel opts contentLen p
    = Some (Returned (map (fun i => (i, O)) (seq (Z.to_nat p) n), contentLen)).
Proof.
  intros HM HO HL. induction n as [|n IH]; intros p Hp Hn [|fuel] Hf; try lia; simpl.
  - replace (p <? contentLen) with false by (symmetry; apply Z.ltb_ge; lia).
    do 3 f_equal. lia.
  - replace (p <? contentLen) with true by (symmetry; apply Z.ltb_lt; lia).
    rewrite plan_body_zero by (auto; lia).
    rewrite (IH (p + 1)) by lia.
    replace (Z.to_nat (p + 1)) with (S (Z.to_nat p)) by lia. reflexivity.
Qed.

(** C10. For every non-empty content, [Chunk] with [MaxSize = 0] and
    [Overlap = 0] does not take the single-chunk path: it returns as many
    chunks as the content has bytes, each of them a single newline and
    nothing of the content, with a nil error. *)
Theorem Chunk_zero_size opts content spare :
  MaxSize opts = 0 -> Overlap opts = 0 -> content <> [] ->
  Z.of_nat (length content) <= Int64.max_int ->
  exists cs,
    Chunk opts (mkByteSlice content spare) = Some (Returned (cs, None))
    /\ length cs = length content
    /\ Forall (fun c => types.Content c = [newline]) cs.
Proof.
  intros HM HO Hne HL. rewrite Chunk_emit. unfold Chunk_plan, Chunk_plan_at. simpl elems.
  set (n := length content) in *.
  assert (n <> O) as Hn by (subst n; destruct content; simpl; congruence).
  replace (n =? 0)%nat with false by (symmetry; apply Nat.eqb_neq; exact Hn).
  rewrite HM. simpl andb. cbv iota.
  rewrite (plan_zero opts (Z.of_nat n) HM HO HL n 0) by lia.
  cbn [option_map outcome_map fst room]. rewrite emit_empty by (apply Forall_map, Forall_forall; reflexivity).
  eexists. split; [reflexivity|]. rewrite !length_map, length_seq. split; [reflexivity|].
  rewrite Forall_map, Forall_map. apply Forall_forall. reflexivity.
Qed.

(** *** Termination *)

(** C5, as the code has it. [Chunk] terminates for every content and every
    options value: with more fuel than the content has bytes the run is
    over, and its outcome does not depend on the fuel. It returns a finite
    sequence of chunks whenever [MaxSize] is not negative, also when
    [Overlap] is [MaxSize] or more (for an overlap above [-2^62] and content
    below [2^62] bytes, where no position overflows). *)
Theorem Chunk_terminates opts content :
  (exists r,
     Chunk opts content = Some r
     /\ forall fuel, (length (elems content) < fuel)%nat ->
          option_map result_of (Chunk_run fuel opts content) = Some r)
  /\ (0 <= MaxSize opts -> - 2 ^ 62 <= Overlap opts <= Int64.max_int ->
      Z.of_nat (length (elems content)) < 2 ^ 62 ->
      exists cs, Chunk opts content = Some (Returned (cs, None))).
Proof.
  split.
  - destruct (Chunk_plan_total opts (length (elems content))) as [r Hr].
    exists (match r with
            | Returned ws =>
                let '(cs, m1) := emit ws (elems content ++ room content) in
                Returned (map (publish m1) cs, None)
            | Panicked => Panicked
            end).
    assert (forall fuel, (length (elems content) < fuel)%nat ->
              option_map result_of (Chunk_run fuel opts content) = Some
                (match r with
                 | Returned ws =>
                     let '(cs, m1) := emit ws (elems content ++ room content) in
                     Returned (map (publish m1) cs, None)
                 | Panicked => Panicked
                 end)) as Hall.
    { intros fuel Hf. rewrite Chunk_run_emit, (Hr fuel Hf).
      destruct r as [ws|]; [|reflexivity]. destruct (emit ws _). reflexivity. }
    split; [apply Hall; lia | exact Hall].
  - intros HM HO HL.
    destruct (Chunk_plan_returns opts (length (elems content)) HM HO HL) as [ws Hws].
    rewrite Chunk_emit. unfold Chunk_plan.
    rewrite (Hws (S (length (elems content))) (Nat.lt_succ_diag_r _)).
    destruct (emit ws _) as [cs m1]. eexists. reflexivity.
Qed.

(** *** Sizes *)


Lemma plan_body_PBreak opts contentLen p ws q :
  plan_body opts contentLen p = PBreak ws q -> (1 <= length ws <= 2)%nat.
Proof.
  unfold plan_body.
  destruct (slice_expr _ p _) as [w0|]; [|discriminate].
  destruct (_ && _); [|discriminate].
  destruct (slice_expr _ _ contentLen) as [w2|]; [|discriminate].
  destruct (0 <? snd w2)%nat; intros [= <- <-]; simpl; lia.
Qed.








(** *** The advance *)

(** C4, as the code has it. In the sliding-window loop, after a chunk is
    emitted the position advances by exactly [max(1, chunkSize - Overlap)],
    where [chunkSize] is [MaxSize] clamped to the bytes that remain,
    [min(MaxSize, contentLen - pos)]; that is [max(1, MaxSize - Overlap)]
    for every window that is not clamped. (Content at least as long as
    [MaxSize] and below [2^62] bytes, overlap above [-2^62]: no overflow.) *)
Theorem loop_body_advance opts contentLen s :
  0 <= MaxSize opts <= contentLen ->
  - 2 ^ 62 <= Overlap opts <= Int64.max_int ->
  contentLen < 2 ^ 62 ->
  contentLen <= Z.of_nat (length (mem s)) ->
  0 <= pos s < contentLen ->
  exists s',
    (loop_body opts contentLen s = Next s' \/ loop_body opts contentLen s = Break s')
    /\ pos s' = pos s + Z.max 1 (Z.min (MaxSize opts) (contentLen - pos s) - Overlap opts)
    /\ (pos s + MaxSize opts <= contentLen ->
        pos s' = pos s + Z.max 1 (MaxSize opts - Overlap opts)).
Proof.
  intros HM HO HL Hcap Hp.
  rewrite loop_body_plan by lia.
  destruct (plan_body_sane opts contentLen (pos s) ltac:(lia) HO HL Hp) as (_ & _ & ->).
  set (q := pos s + Z.max 1 (Z.min (MaxSize opts) (contentLen - pos s) - Overlap opts)).
  assert (pos s + MaxSize opts <= contentLen ->
          q = pos s + Z.max 1 (MaxSize opts - Overlap opts)) as Hfull.
  { intros Hle. subst q. rewrite Z.min_l by lia. reflexivity. }
  destruct ((q <? contentLen) && (contentLen - q <=? Overlap opts)).
  - destruct (emit _ (mem s)) as [cs m1]. eexists. split; [right; reflexivity|].
    split; [reflexivity | exact Hfull].
  - destruct (emit _ (mem s)) as [cs m1]. eexists. split; [left; reflexivity|].
    split; [reflexivity | exact Hfull].
Qed.

(** *** Chunks that were not trimmed, and what they share *)

Lemma take_read m off n k : (k <= n)%nat -> take k (read m off n) = read m off k.
Proof. intros Hk. unfold read. rewrite take_take. f_equal. lia. Qed.

Lemma drop_read m off n j : drop j (read m off n) = read m (off + j) (n - j).
Proof.
  apply list_eq. intros i. rewrite lookup_drop.
  destruct (decide (j + i < n)%nat) as [Hi|Hi].
  - rewrite !read_lookup by lia. f_equal. lia.
  - unfold read. rewrite !lookup_take_ge by lia. reflexivity.
Qed.

(** A chunk as long as its window and the newline is the window, untrimmed:
    the newline was written right behind the window, or the chunk is a copy. *)
Lemma appendTrimmed_full m off n r m' :
  appendTrimmed m off n = (r, m') ->
  (off + n <= length m)%nat -> ref_len r = (n + 1)%nat ->
  (r = InCaller off (n + 1) /\ m' = <[(off + n)%nat := newline]> m)
  \/ (r = Fresh (read m off n ++ [newline]) /\ m' = m).
Proof.
  intros E Hin Hlen. destruct (appendTrimmed_cases _ _ _ _ _ E)
    as [(_ & -> & ->) | (lo & hi & _ & Hb & [(Hlt & -> & ->) | (Hge & -> & ->)])];
    simpl in Hlen.
  - right. assert (n = O) as -> by lia. split; [|reflexivity].
    unfold read. rewrite take_0. reflexivity.
  - rewrite read_length in Hb. assert (lo = O /\ hi = n) as [-> ->] by lia.
    left. rewrite Nat.add_0_r, Nat.sub_0_r. auto.
  - rewrite read_length in Hb. rewrite length_app, read_length in Hlen. simpl in Hlen.
    assert (lo = O /\ hi = n) as [-> ->] by lia.
    right. rewrite Nat.add_0_r, Nat.sub_0_r. auto.
Qed.

Lemma emit_count ws m cs m' : emit ws m = (cs, m') -> length cs = length ws.
Proof.
  intros E. destruct (emit_ok _ _ _ _ E) as (_ & Hall).
  symmetry. exact (Forall2_length _ _ _ Hall).
Qed.

(** Two consecutive windows that share [k] bytes, neither trimmed: the last
    [k] bytes of the first chunk are the first [k] bytes of the second, in
    what the caller reads, provided the windows behind them start no earlier
    than the shared bytes end. *)
Lemma emit_overlap pre off1 n1 off2 n2 rest m0 rs m' k r1 r2 :
  emit (pre ++ (off1, n1) :: (off2, n2) :: rest) m0 = (rs, m') ->
  rs !! length pre = Some r1 -> rs !! S (length pre) = Some r2 ->
  (off1 + n1 <= length m0)%nat -> (off2 + n2 <= length m0)%nat ->
  (k <= n1)%nat -> (k <= n2)%nat -> (off2 + k = off1 + n1)%nat ->
  Forall (fun w => (off2 + k <= fst w + 1)%nat) rest ->
  ref_len (rContent r1) = (n1 + 1)%nat -> ref_len (rContent r2) = (n2 + 1)%nat ->
  drop (n1 - k) (take n1 (deref m' (rContent r1))) = take k (deref m' (rContent r2)).
Proof.
  intros E Hr1 Hr2 Hin1 Hin2 Hk1 Hk2 Hoff Hrest Hl1 Hl2.
  rewrite emit_app in E.
  destruct (emit pre m0) as [rs0 m1] eqn:E0. simpl in E.
  destruct (newChunk m1 off1 n1) as [c1 m2] eqn:Ec1.
  destruct (newChunk m2 off2 n2) as [c2 m3] eqn:Ec2.
  destruct (emit rest m3) as [rs3 m4] eqn:E3. injection E as <- <-.
  pose proof (emit_count _ _ _ _ E0) as Hc0.
  pose proof (emit_length _ _ _ _ E0) as L1.
  pose proof (newChunk_length _ _ _ _ _ Ec1) as L2.
  pose proof (newChunk_length _ _ _ _ _ Ec2) as L3.
  pose proof (emit_length _ _ _ _ E3) as L4.
  rewrite lookup_app_r in Hr1 by lia. rewrite lookup_app_r in Hr2 by lia.
  replace (length pre - length rs0)%nat with O in Hr1 by lia.
  replace (S (length pre) - length rs0)%nat with 1%nat in Hr2 by lia.
  simpl in Hr1, Hr2. injection Hr1 as <-. injection Hr2 as <-.
  destruct (newChunk_inv _ _ _ _ _ Ec1) as (Ea1 & _).
  destruct (newChunk_inv _ _ _ _ _ Ec2) as (Ea2 & _).
  assert (forall q, (off2 <= q < off2 + k)%nat -> m4 !! q = m3 !! q) as F34.
  { intros q Hq. eapply (emit_frame rest m3 rs3 m4 (off2 + k - 1) q E3); [|lia].
    eapply Forall_impl; [exact Hrest|]. intros w Hw. simpl in Hw. lia. }
  destruct (appendTrimmed_full _ _ _ _ _ Ea1 ltac:(lia) Hl1) as [[R1 M2]|[R1 M2]];
    destruct (appendTrimmed_full _ _ _ _ _ Ea2 ltac:(lia) Hl2) as [[R2 M3]|[R2 M3]];
    rewrite R1, R2; simpl deref.
  - rewrite !take_read by lia. rewrite drop_read.
    replace (off1 + (n1 - k))%nat with off2 by lia.
    replace (n1 - (n1 - k))%nat with k by lia. reflexivity.
  - rewrite take_read by lia. rewrite drop_read.
    replace (off1 + (n1 - k))%nat with off2 by lia.
    replace (n1 - (n1 - k))%nat with k by lia.
    rewrite take_app_le by (rewrite read_length; lia). rewrite take_read by lia.
    apply read_ext; [lia|]. intros q Hq. rewrite F34 by lia. rewrite M3. reflexivity.
  - rewrite take_app_le by (rewrite read_length; lia).
    rewrite (firstn_all2 (read m1 off1 n1)) by (rewrite read_length; lia).
    rewrite drop_read.
    replace (off1 + (n1 - k))%nat with off2 by lia.
    replace (n1 - (n1 - k))%nat with k by lia.
    rewrite take_read by lia.
    apply read_ext; [lia|]. intros q Hq. rewrite F34 by lia. rewrite M3, M2.
    symmetry. apply list_lookup_insert_ne. lia.
  - rewrite take_app_le by (rewrite read_length; lia).
    rewrite (firstn_all2 (read m1 off1 n1)) by (rewrite read_length; lia).
    rewrite drop_read.
    replace (off1 + (n1 - k))%nat with off2 by lia.
    replace (n1 - (n1 - k))%nat with k by lia.
    rewrite take_app_le by (rewrite read_length; lia). rewrite take_read by lia.
    rewrite M2. reflexivity.
Qed.

(** *** The scenario of 70 bytes *)

Lemma publish_length m r :
  ref_ok m (rContent r) -> length (types.Content (publish m r)) = ref_len (rContent r).
Proof. intros Hok. destruct (deref_ok _ _ Hok) as (_ & _ & Hl). exact Hl. Qed.

Lemma publish_body m r n :
  ref_ok m (rContent r) -> ref_len (rContent r) = (n + 1)%nat ->
  body (publish m r) = take n (deref m (rContent r)) /\ length (body (publish m r)) = n.
Proof.
  intros Hok Hlen. pose proof (publish_length _ _ Hok) as Hl.
  unfold body. rewrite Hl, Hlen. replace (n + 1 - 1)%nat with n by lia.
  split; [reflexivity|]. rewrite length_take, Hl. lia.
Qed.

(** Two consecutive chunks of a run, as the caller reads them. *)
Lemma Chunk_overlap pre off1 n1 off2 n2 rest m0 rs m' r1 r2 :
  emit (pre ++ (off1, n1) :: (off2, n2) :: rest) m0 = (rs, m') ->
  rs !! length pre = Some r1 -> rs !! S (length pre) = Some r2 ->
  ref_ok m' (rContent r1) -> ref_ok m' (rContent r2) ->
  (off1 + n1 <= length m0)%nat -> (off2 + n2 <= length m0)%nat ->
  (5 <= n1)%nat -> (5 <= n2)%nat -> (off2 + 5 = off1 + n1)%nat ->
  Forall (fun w => (off2 + 5 <= fst w + 1)%nat) rest ->
  length (types.Content (publish m' r1)) = (n1 + 1)%nat ->
  length (types.Content (publish m' r2)) = (n2 + 1)%nat ->
  drop (length (body (publish m' r1)) - 5) (body (publish m' r1))
  = take 5 (body (publish m' r2)).
Proof.
  intros E Hr1 Hr2 Hok1 Hok2 Hin1 Hin2 Hk1 Hk2 Hoff Hrest Hl1 Hl2.
  rewrite publish_length in Hl1, Hl2 by assumption.
  destruct (publish_body _ _ _ Hok1 Hl1) as (-> & ->).
  destruct (publish_body _ _ _ Hok2 Hl2) as (-> & _).
  rewrite take_take, Nat.min_l by exact Hk2.
  eapply emit_overlap; eauto.
Qed.

(** C8, as the code has it. For a content of 70 bytes, [MaxSize = 20] and
    [Overlap = 5], [Chunk] returns exactly 6 chunks, cut from the windows
    at offsets 0, 15, 30, 45, 60 and 65 of 20, 20, 20, 20, 10 and 5 bytes,
    the last one ending where the content ends. Each chunk holds, before
    its newline, at most the bytes of its window, so at most 20. For two
    consecutive chunks of which neither lost a byte to trimming, the last 5
    bytes of the first are the first 5 bytes of the second. *)
Theorem Chunk_seventy opts content spare :
  MaxSize opts = 20 -> Overlap opts = 5 -> length content = 70%nat ->
  Chunk_plan opts 70 = Some (Returned windows70)
  /\ exists cs,
      Chunk opts (mkByteSlice content spare) = Some (Returned (cs, None))
      /\ cs = (let '(rs, m1) := emit windows70 (content ++ spare) in map (publish m1) rs)
      /\ length cs = 6%nat
      /\ Forall2 (fun w c => (length (body c) <= snd w <= 20)%nat) windows70 cs
      /\ forall i wi wn ci cn,
           windows70 !! i = Some wi -> windows70 !! S i = Some wn ->
           cs !! i = Some ci -> cs !! S i = Some cn ->
           length (types.Content ci) = (snd wi + 1)%nat ->
           length (types.Content cn) = (snd wn + 1)%nat ->
           drop (length (body ci) - 5) (body ci) = take 5 (body cn).
Proof.
  intros HM HO Hlen.
  assert (Chunk_plan opts 70 = Some (Returned windows70)) as Hplan.
  { destruct opts as [ms ov mt pm]. simpl in HM, HO. subst ms ov.
    vm_compute. reflexivity. }
  split; [exact Hplan|].
  rewrite Chunk_emit. simpl elems. simpl room. rewrite Hlen, Hplan.
  destruct (emit windows70 (content ++ spare)) as [rs m'] eqn:E.
  exists (map (publish m') rs).
  destruct (emit_ok _ _ _ _ E) as (_ & Hall).
  assert (70 <= length (content ++ spare))%nat as Hcap by (rewrite length_app; lia).
  unfold windows70 in Hall.
  destruct rs as [|r0 [|r1 [|r2 [|r3 [|r4 [|r5 [|r6 rs]]]]]]];
    try (apply Forall2_length in Hall; simpl in Hall; lia).
  repeat match goal with
         | X : Forall2 _ (_ :: _) (_ :: _) |- _ =>
             apply Forall2_cons_1 in X; destruct X as [[? ?] X]
         end.
  simpl snd in *.
  split; [reflexivity|]. split; [reflexivity|]. split; [reflexivity|]. split.
  - unfold windows70. simpl map.
    repeat (constructor; [simpl snd; unfold body;
                          rewrite length_take, publish_length by assumption; lia|]).
    constructor.
  - intros i wi wn ci cn Hwi Hwn Hci Hcn Hli Hln.
    unfold windows70 in E.
    destruct i as [|[|[|[|[|i]]]]]; simpl in Hwi, Hwn, Hci, Hcn;
      try discriminate;
      injection Hwi as <-; injection Hwn as <-; injection Hci as <-; injection Hcn as <-;
      simpl snd in Hli, Hln.
    + eapply (Chunk_overlap [] 0 20 15 20
                [(30, 20); (45, 20); (60, 10); (65, 5)]%nat _ _ _ _ _ E);
        try reflexivity; try assumption; try lia.
      repeat (constructor; [simpl; lia|]). constructor.
    + eapply (Chunk_overlap [(0, 20)%nat] 15 20 30 20
                [(45, 20); (60, 10); (65, 5)]%nat _ _ _ _ _ E);
        try reflexivity; try assumption; try lia.
      repeat (constructor; [simpl; lia|]). constructor.
    + eapply (Chunk_overlap [(0, 20); (15, 20)]%nat 30 20 45 20
                [(60, 10); (65, 5)]%nat _ _ _ _ _ E);
        try reflexivity; try assumption; try lia.
      repeat (constructor; [simpl; lia|]). constructor.
    + eapply (Chunk_overlap [(0, 20); (15, 20); (30, 20)]%nat 45 20 60 10
                [(65, 5)%nat] _ _ _ _ _ E);
        try reflexivity; try assumption; try lia.
      repeat (constructor; [simpl; lia|]). constructor.
    + eapply (Chunk_overlap [(0, 20); (15, 20); (30, 20); (45, 20)]%nat 60 10 65 5
                [] _ _ _ _ _ E);
        try reflexivity; try assumption; try lia.
      constructor.
Qed.

End Facts.

End ChunkerFacts.

(** ** The scanner *)

Module ScannerFacts.
Import scanner.

Section Facts.
Context {text : GoText} {fpath : GoPath}.

(** *** Construction *)



(** *** The skip decision *)

Lemma matchPatterns_spec patterns relPath isDir :
  matchPatterns patterns relPath isDir =
  if existsb (fun p => patternHits p relPath) patterns then (true, isDir) else (false, false).
Proof.
  induction patterns as [|p ps IH]; simpl; [reflexivity|].
  unfold patternHits at 1. destruct (Match p relPath) as [matched bad].
  destruct (negb bad && matched); simpl; [reflexivity|].
  destruct (HasSuffix p "/*" && HasPrefix relPath (TrimSuffix p "/*" ++ Separator));
    simpl; [reflexivity | exact IH].
Qed.

Lemma substring_app_l a b : substring 0 (String.length a) (a ++ b) = a.
Proof.
  induction a as [|c a IH]; simpl.
  - destruct b; reflexivity.
  - rewrite IH. reflexivity.
Qed.

Lemma substring_app_r a b : substring (String.length a) (String.length b) (a ++ b) = b.
Proof.
  induction a as [|c a IH]; simpl; [|exact IH].
  induction b as [|c b IHb]; simpl; [reflexivity|]. rewrite IHb. reflexivity.
Qed.

Lemma length_string_app a b :
  String.length (a ++ b) = (String.length a + String.length b)%nat.
Proof. induction a as [|c a IH]; simpl; [reflexivity|]. rewrite IH. reflexivity. Qed.

Lemma HasSuffix_app a b : HasSuffix (a ++ b) b = true.
Proof.
  unfold HasSuffix. rewrite length_string_app.
  replace (String.length a + String.length b - String.length b)%nat
    with (String.length a) by lia.
  rewrite substring_app_r, String.eqb_refl.
  replace (String.length b <=? String.length a + String.length b)%nat with true
    by (symmetry; apply Nat.leb_le; lia).
  reflexivity.
Qed.

Lemma TrimSuffix_app a b : TrimSuffix (a ++ b) b = a.
Proof.
  unfold TrimSuffix. rewrite HasSuffix_app, length_string_app.
  replace (String.length a + String.length b - String.length b)%nat
    with (String.length a) by lia.
  apply substring_app_l.
Qed.

(** C7, as the code has it. After the size filter, which excludes a file
    that is too large and nothing else, the skip decision tests the ignore
    patterns against the path relative to the root in two forms: a glob
    match of the whole relative path ([filepath.Match], so [*.ext] for a
    file at the top), and a pattern [dir/*], which matches every path below
    [dir]. There is no match by substring. A directory that matches is not
    descended into; a file that matches is left out, and only it. *)
Theorem shouldSkip_forms s path info :
  let relPath := relPathOf s path in
  let tooLarge := negb (IsDir info) && (Size info >? types.MaxFileSize (opts s)) in
  let hit := existsb (fun p => patternHits p relPath) (types.IgnorePattern (opts s)) in
  shouldSkip s path info
  = (if tooLarge then (true, false)
     else if hit then (true, IsDir info) else (false, false))
  /\ visit s path info
     = (if tooLarge then Pass
        else if hit then (if IsDir info then SkipDir else Pass)
        else if IsDir info then Pass else Send path)
  /\ (forall dir,
        (dir ++ "/*")%string ∈ types.IgnorePattern (opts s) ->
        HasPrefix relPath (dir ++ "/") = true ->
        tooLarge = false -> hit = true).
Proof.
  intros relPath tooLarge hit.
  assert (shouldSkip s path info
          = (if tooLarge then (true, false)
             else if hit then (true, IsDir info) else (false, false))) as Hs.
  { unfold shouldSkip. fold tooLarge. destruct tooLarge; [reflexivity|].
    fold (relPathOf s path). fold relPath. apply matchPatterns_spec. }
  split; [exact Hs|]. split.
  - unfold visit. rewrite Hs. destruct tooLarge eqn:Et.
    + subst tooLarge. destruct (IsDir info); [discriminate | reflexivity].
    + destruct hit; destruct (IsDir info); reflexivity.
  - intros dir Hin Hpre _. subst hit. apply existsb_exists.
    exists (dir ++ "/*")%string. split; [apply list_elem_of_In; exact Hin|].
    unfold patternHits. rewrite HasSuffix_app, TrimSuffix_app.
    unfold Separator. rewrite Hpre. apply orb_true_r.
Qed.

(** *** Binary classification *)

Lemma countNonPrintable_filter buf : forall acc,
  countNonPrintable buf acc = acc + Z.of_nat (length (List.filter nonPrintableByte buf)).
Proof.
  induction buf as [|b buf IH]; intros acc; simpl; [lia|].
  rewrite IH. destruct (nonPrintableByte b); simpl; lia.
Qed.

Lemma allFrom_spec P : forall count z,
  allFrom count z P = true -> forall x, z <= x < z + Z.of_nat count -> P x = true.
Proof.
  induction count as [|c IH]; intros z Hall x Hx; [lia|].
  simpl in Hall. apply andb_true_iff in Hall. destruct Hall as [Hz Hrest].
  destruct (Z.eq_dec x z) as [->|Hne]; [exact Hz|].
  apply (IH (z + 1) Hrest). lia.
Qed.

Lemma ratioTable_true : allFrom binaryCheckSize 1 rowExact = true.
Proof. vm_compute. reflexivity. Qed.

Lemma ratioExceeds_exact k n :
  1 <= n <= 512 -> 0 <= k <= n -> ratioExceeds k n = (3 * n <? 10 * k).
Proof.
  intros Hn Hk.
  pose proof (allFrom_spec rowExact binaryCheckSize 1 ratioTable_true n) as Hrow.
  unfold binaryCheckSize in Hrow. specialize (Hrow ltac:(lia)).
  pose proof (allFrom_spec (cellExact n) (S (Z.to_nat n)) 0 Hrow k ltac:(lia)) as Hcell.
  apply Bool.eqb_prop in Hcell. exact Hcell.
Qed.

Lemma filter_length_le {A} (f : A -> bool) l : (length (List.filter f l) <= length l)%nat.
Proof. induction l as [|a l IH]; simpl; [lia|]. destruct (f a); simpl; lia. Qed.

(** The test of the loop of [isBinaryFile] picks the bytes the
    specification counts. *)
Lemma nonPrintableByte_counted b : nonPrintableByte b = countedBySpec b.
Proof.
  unfold nonPrintableByte, countedBySpec. rewrite negb_orb. f_equal.
  destruct b; reflexivity.
Qed.

Lemma filter_nonPrintable_counted buf :
  List.filter nonPrintableByte buf = List.filter countedBySpec buf.
Proof.
  induction buf as [|b buf IH]; simpl; [reflexivity|].
  rewrite nonPrintableByte_counted, IH. reflexivity.
Qed.

(** C6. Binary classification looks at the first 512 bytes of the file at
    most. An empty sample is text. Otherwise the file is binary exactly
    when the bytes of the sample that are zero, or neither graphic nor
    white space, are strictly more than 30% of the sample: a byte that is
    graphic or white space, and not zero, does not count. So the verdict is
    a function of the first 512 bytes: two files that share them classify
    alike. *)
Theorem isBinaryFile_spec data :
  let sample := take binaryCheckSize data in
  let counted := length (List.filter countedBySpec sample) in
  (length sample <= 512)%nat
  /\ isBinaryFile (Holds data)
     = (negb (length sample =? 0)%nat && (3 * length sample <? 10 * counted)%nat, None)
  /\ isBinaryFile (Holds data) = isBinaryFile (Holds sample)
  /\ (forall data', take binaryCheckSize data' = sample ->
        isBinaryFile (Holds data') = isBinaryFile (Holds data)).
Proof.
  intros sample counted.
  assert (length sample <= 512)%nat as Hlen.
  { subst sample. rewrite length_take. unfold binaryCheckSize. lia. }
  assert (forall d, isBinaryFile (Holds d)
            = (let smp := take binaryCheckSize d in
               (negb (length smp =? 0)%nat
                && (3 * length smp <? 10 * length (List.filter countedBySpec smp))%nat,
                None))) as Hspec.
  { intros d. unfold isBinaryFile. cbv zeta.
    set (smp := take binaryCheckSize d).
    assert (length smp <= 512)%nat as Hl
      by (subst smp; rewrite length_take; unfold binaryCheckSize; lia).
    destruct (Nat.eqb_spec (length smp) 0) as [E0|Hne]; [reflexivity|].
    rewrite countNonPrintable_filter, Z.add_0_l, filter_nonPrintable_counted.
    simpl negb. simpl andb.
    pose proof (filter_length_le countedBySpec smp) as Hk.
    fold (ratioExceeds (Z.of_nat (length (List.filter countedBySpec smp)))
            (Z.of_nat (length smp))).
    rewrite ratioExceeds_exact by lia. f_equal.
    destruct (Z.ltb_spec (3 * Z.of_nat (length smp))
                (10 * Z.of_nat (length (List.filter countedBySpec smp))));
      symmetry; [apply Nat.ltb_lt | apply Nat.ltb_ge]; lia. }
  split; [exact Hlen|]. split; [apply Hspec|]. split.
  - rewrite (Hspec data), (Hspec sample). cbv zeta.
    subst sample. rewrite take_take, Nat.min_id. reflexivity.
  - intros data' Heq. rewrite (Hspec data), (Hspec data'). cbv zeta.
    fold sample. rewrite Heq. reflexivity.
Qed.

End Facts.

End ScannerFacts.

(** * More of the chunker: what a call does beyond its chunks *)

Module ChunkMore.
Import processor chunker ChunkerFacts.

Section Facts.
Context {text : GoText}.

(** *** The state a call leaves *)

Lemma Chunk_run_state fuel opts content s :
  Chunk_run fuel opts content = Some (Returned s) ->
  exists ws,
    Chunk_plan_at fuel opts (length (elems content)) = Some (Returned ws)
    /\ emit ws (elems content ++ room content) = (chunks s, mem s).
Proof.
  unfold Chunk_run, Chunk_plan_at.
  destruct (length (elems content) =? 0)%nat.
  - intros [= <-]. exists []. split; reflexivity.
  - destruct (_ && _).
    + destruct (newChunk _ 0 _) as [c m1] eqn:Ec. intros [= <-].
      eexists. split; [reflexivity|]. simpl. rewrite Ec. reflexivity.
    + rewrite loop_plan by (simpl; rewrite length_app; lia). simpl.
      destruct (plan fuel opts _ 0) as [[[ws q]|]|]; try discriminate.
      destruct (emit ws _) as [cs m1] eqn:Ee. intros [= <-].
      exists ws. split; [reflexivity | simpl; exact Ee].
Qed.

Lemma appendTrimmed_writes m off n r m' :
  appendTrimmed m off n = (r, m') ->
  m' = m \/ exists p, (off < p <= off + n)%nat /\ m' = <[p := newline]> m.
Proof.
  intros E. destruct (appendTrimmed_cases _ _ _ _ _ E)
    as [(_ & _ & ->) | (lo & hi & _ & Hb & [(Hlt & _ & ->) | (_ & _ & ->)])]; auto.
  rewrite read_length in Hb. right. exists (off + hi)%nat. split; [lia | reflexivity].
Qed.

Lemma emit_writes ws : forall m cs m',
  emit ws m = (cs, m') ->
  exists ps,
    (length ps <= length cs)%nat /\ Forall (fun p => (1 <= p)%nat) ps
    /\ m' = writeNewlines ps m.
Proof.
  induction ws as [|[off n] ws IH]; intros m cs m'; simpl.
  - intros [= <- <-]. exists []. repeat split; [simpl; lia | constructor].
  - destruct (newChunk m off n) as [c m1] eqn:Ec.
    destruct (emit ws m1) as [cs1 m2] eqn:Ee. intros [= <- <-].
    destruct (newChunk_inv _ _ _ _ _ Ec) as (Ea & _).
    destruct (IH _ _ _ Ee) as (ps & Hlen & Hpos & ->).
    destruct (appendTrimmed_writes _ _ _ _ _ Ea) as [->|(p & Hp & ->)].
    + exists ps. repeat split; [simpl; lia | exact Hpos].
    + exists (p :: ps). repeat split; [simpl; lia | constructor; [lia | exact Hpos]].
Qed.

Lemma writeNewlines_lookup ps : forall m q,
  writeNewlines ps m !! q = m !! q \/ writeNewlines ps m !! q = Some newline.
Proof.
  induction ps as [|p ps IH]; intros m q; simpl; [left; reflexivity|].
  destruct (IH (<[p := newline]> m) q) as [E|E]; [|right; exact E].
  rewrite E. destruct (decide (p = q)) as [->|Hne].
  - destruct (decide (q < length m)%nat) as [Hq|Hq].
    + right. apply list_lookup_insert_eq. exact Hq.
    + left. rewrite !lookup_ge_None_2; [reflexivity | lia | rewrite length_insert; lia].
  - left. apply list_lookup_insert_ne. exact Hne.
Qed.

Lemma writeNewlines_length ps : forall m, length (writeNewlines ps m) = length m.
Proof.
  induction ps as [|p ps IH]; intros m; simpl; [reflexivity|].
  unfold writeNewlines in IH. rewrite IH. apply length_insert.
Qed.

Lemma writeNewlines_first ps : forall m,
  Forall (fun p => (1 <= p)%nat) ps -> writeNewlines ps m !! 0%nat = m !! 0%nat.
Proof.
  induction ps as [|p ps IH]; intros m Hall; simpl; [reflexivity|].
  inversion Hall as [|? ? Hp Hps]; subst.
  unfold writeNewlines in IH. rewrite IH by exact Hps.
  apply list_lookup_insert_ne. lia.
Qed.

(** A call that returns leaves the caller's array as long as it was, with
    newlines written over at most one byte for each chunk and never over
    the first byte: every byte is the one it was, or a newline. The chunks
    are read in that array. *)
Theorem Chunk_overwrites_with_newlines opts content s :
  Chunk_run (S (length (elems content))) opts content = Some (Returned s) ->
  Chunk opts content = Some (Returned (map (publish (mem s)) (chunks s), None))
  /\ length (mem s) = length (elems content ++ room content)
  /\ (exists ps,
        (length ps <= length (chunks s))%nat
        /\ mem s = writeNewlines ps (elems content ++ room content))
  /\ mem s !! 0%nat = (elems content ++ room content) !! 0%nat
  /\ (forall q, mem s !! q = (elems content ++ room content) !! q
                \/ mem s !! q = Some newline).
Proof.
  intros Hrun. split; [unfold Chunk; rewrite Hrun; reflexivity|].
  destruct (Chunk_run_state _ _ _ _ Hrun) as (ws & _ & Ee).
  destruct (emit_writes _ _ _ _ Ee) as (ps & Hlen & Hpos & Hm).
  rewrite Hm. split; [apply writeNewlines_length|].
  split; [exists ps; split; [exact Hlen | reflexivity]|].
  split; [apply writeNewlines_first; exact Hpos | apply writeNewlines_lookup].
Qed.

(** *** The windows leave no gap *)

Lemma plan_covers opts contentLen :
  1 <= MaxSize opts < 2 ^ 62 -> 0 <= Overlap opts <= Int64.max_int ->
  contentLen < 2 ^ 62 ->
  forall fuel p ws q, 0 <= p ->
    plan fuel opts contentLen p = Some (Returned (ws, q)) ->
    (forall i, p <= i < contentLen ->
       exists off n, (off, n) ∈ ws /\ Z.of_nat off <= i < Z.of_nat off + Z.of_nat n)
    /\ Forall (fun w => Z.of_nat (fst w) + Z.of_nat (snd w) <= contentLen) ws.
Proof.
  intros HM HO HL. induction fuel as [|fuel IH]; intros p ws q Hp; simpl; [discriminate|].
  destruct (Z.ltb_spec p contentLen) as [Hlt|Hge].
  - destruct (plan_body_sane opts contentLen p ltac:(lia) ltac:(lia) HL (conj Hp Hlt))
      as (_ & _ & ->).
    set (c := Z.min (MaxSize opts) (contentLen - p)).
    set (q1 := p + Z.max 1 (c - Overlap opts)).
    assert (1 <= c <= contentLen - p) as Hc by (subst c; lia).
    assert (p < q1 <= p + c) as Hq1 by (subst q1; lia).
    destruct ((q1 <? contentLen) && (contentLen - q1 <=? Overlap opts)) eqn:Ebrk.
    + intros [= <- <-]. apply andb_true_iff in Ebrk. destruct Ebrk as [Eq _].
      apply Z.ltb_lt in Eq. split.
      * intros i Hi. destruct (Z_lt_ge_dec i (p + c)) as [Hin|Hout].
        -- exists (Z.to_nat p), (Z.to_nat c). split; [apply list_elem_of_here | lia].
        -- exists (Z.to_nat q1), (Z.to_nat (contentLen - q1)).
           split; [apply list_elem_of_further, list_elem_of_here | lia].
      * repeat constructor; simpl; lia.
    + destruct (plan fuel opts contentLen q1) as [[[ws1 q2]|]|] eqn:Ep; try discriminate.
      intros [= <- <-]. destruct (IH q1 ws1 q2 ltac:(lia) Ep) as (Hcov & Hin). split.
      * intros i Hi. destruct (Z_lt_ge_dec i (p + c)) as [Hi1|Hi2].
        -- exists (Z.to_nat p), (Z.to_nat c). split; [apply list_elem_of_here | lia].
        -- destruct (Hcov i ltac:(lia)) as (off & n & Hw & Hrange).
           exists off, n. split; [apply list_elem_of_further; exact Hw | exact Hrange].
      * constructor; [simpl; lia | exact Hin].
  - intros [= <- <-]. split; [intros i Hi; lia | constructor].
Qed.

(** With a positive [MaxSize] and an overlap that is not negative, the
    windows the chunks are cut from lie within the content and leave no
    byte of it out: every offset of the content is in some window. (What
    a chunk then holds is the window as the earlier appends left it.) *)
Theorem Chunk_windows_cover opts content :
  1 <= MaxSize opts -> 0 <= Overlap opts <= Int64.max_int ->
  Z.of_nat (length (elems content)) < 2 ^ 62 ->
  exists ws,
    Chunk_plan opts (length (elems content)) = Some (Returned ws)
    /\ Chunk opts content
       = (let '(cs, m1) := emit ws (elems content ++ room content) in
          Some (Returned (map (publish m1) cs, None)))
    /\ Forall (fun w => (fst w + snd w <= length (elems content))%nat) ws
    /\ (forall i, (i < length (elems content))%nat ->
          exists off n, (off, n) ∈ ws /\ (off <= i < off + n)%nat).
Proof.
  intros HM HO HL. set (len := length (elems content)) in *.
  assert (exists ws, Chunk_plan opts len = Some (Returned ws)
            /\ Forall (fun w => (fst w + snd w <= len)%nat) ws
            /\ (forall i, (i < len)%nat ->
                  exists off n, (off, n) ∈ ws /\ (off <= i < off + n)%nat)) as (ws & Hp & Hin & Hcov).
  { unfold Chunk_plan, Chunk_plan_at.
    destruct (Nat.eqb_spec len 0) as [E0|Hne].
    - exists []. split; [reflexivity|]. split; [constructor | intros i Hi; lia].
    - replace (0 <? MaxSize opts) with true by (symmetry; apply Z.ltb_lt; lia).
      destruct (Z.leb_spec (Z.of_nat len) (MaxSize opts)) as [Hfit|Hbig]; cbn [andb].
      + exists [(O, len)]. split; [reflexivity|].
        split; [repeat constructor; simpl; lia|].
        intros i Hi. exists O, len. split; [apply list_elem_of_here | lia].
      + destruct (plan_returns opts (Z.of_nat len) ltac:(lia) ltac:(lia) HL len 0)
          as (ws & q & Hplan); [lia | unfold dist; simpl; lia |].
        specialize (Hplan (S len) ltac:(lia)). rewrite Hplan. simpl.
        destruct (plan_covers opts (Z.of_nat len) ltac:(lia) HO HL _ 0 ws q ltac:(lia) Hplan)
          as (Hcov & Hin).
        exists ws. split; [reflexivity|]. split.
        * eapply Forall_impl; [exact Hin|]. intros w Hw. simpl in Hw. lia.
        * intros i Hi. destruct (Hcov (Z.of_nat i) ltac:(lia)) as (off & n & Hw & Hr).
          exists off, n. split; [exact Hw | lia]. }
  exists ws. split; [exact Hp|]. split; [|split; [exact Hin | exact Hcov]].
  rewrite Chunk_emit. fold len. rewrite Hp. reflexivity.
Qed.

(** *** How many chunks *)

Lemma plan_body_PBreak_pos opts contentLen p ws q :
  plan_body opts contentLen p = PBreak ws q ->
  0 <= p /\ q = Int64.add p (advanceOf opts (chunkSizeAt opts contentLen p))
  /\ 0 <= q < contentLen.
Proof.
  unfold plan_body.
  destruct (slice_expr _ p _) as [[off n]|] eqn:E1; [|discriminate].
  apply slice_expr_Some in E1.
  destruct (_ && _) eqn:Ec; [|discriminate].
  apply andb_true_iff in Ec. destruct Ec as [Ec _]. apply Z.ltb_lt in Ec.
  destruct (slice_expr _ _ contentLen) as [[off2 n2]|] eqn:E2; [|discriminate].
  apply slice_expr_Some in E2.
  destruct (0 <? snd _)%nat; intros [= <- <-]; repeat split; lia.
Qed.

Lemma plan_negative fuel opts contentLen p r :
  p < 0 -> plan fuel opts contentLen p <> Some (Returned r) \/ contentLen <= p.
Proof.
  intros Hp. destruct (Z_lt_ge_dec p contentLen) as [Hlt|Hge]; [left | right; lia].
  destruct fuel as [|fuel]; simpl; [discriminate|].
  replace (p <? contentLen) with true by (symmetry; apply Z.ltb_lt; exact Hlt).
  rewrite plan_body_neg by exact Hp. discriminate.
Qed.

Lemma plan_count opts contentLen : forall fuel p ws q,
  0 <= p <= Int64.max_int ->
  plan fuel opts contentLen p = Some (Returned (ws, q)) ->
  (length ws <= Z.to_nat (contentLen - p))%nat.
Proof.
  induction fuel as [|fuel IH]; intros p ws q Hp; simpl; [discriminate|].
  destruct (Z.ltb_spec p contentLen) as [Hlt|Hge].
  - destruct (plan_body opts contentLen p) as [w q1|ws1 q1|] eqn:Eb; [| |discriminate].
    + apply plan_body_PNext in Eb. destruct Eb as (_ & Eq).
      destruct (next_pos_progress opts (chunkSizeAt opts contentLen p) p Hp) as (Hr & Hq).
      rewrite <- Eq in Hr, Hq.
      destruct (plan fuel opts contentLen q1) as [[[ws1 q2]|]|] eqn:Ep; try discriminate.
      intros [= <- <-].
      destruct Hq as [Hneg|Hgt].
      * destruct (plan_negative fuel opts contentLen q1 (ws1, q2) Hneg) as [Hn|Hn];
          [contradiction | lia].
      * assert (0 <= q1 <= Int64.max_int) as Hq1
          by (unfold Int64.in_range in Hr; lia).
        specialize (IH q1 ws1 q2 Hq1 Ep). simpl. lia.
    + intros [= <- <-]. pose proof (plan_body_PBreak _ _ _ _ _ Eb) as Hlen.
      apply plan_body_PBreak_pos in Eb. destruct Eb as (_ & Eq & Hq).
      destruct (next_pos_progress opts (chunkSizeAt opts contentLen p) p Hp) as (_ & Hprog).
      rewrite <- Eq in Hprog. lia.
  - intros [= <- <-]. simpl. lia.
Qed.

Lemma plan_one opts contentLen fuel ws q :
  0 < contentLen ->
  plan fuel opts contentLen 0 = Some (Returned (ws, q)) -> (1 <= length ws)%nat.
Proof.
  intros Hlen. destruct fuel as [|fuel]; simpl; [discriminate|].
  replace (0 <? contentLen) with true by (symmetry; apply Z.ltb_lt; exact Hlen).
  destruct (plan_body opts contentLen 0) as [w q1|ws1 q1|] eqn:Eb; [| |discriminate].
  - destruct (plan fuel opts contentLen q1) as [[[ws2 q2]|]|]; try discriminate.
    intros [= <- <-]. simpl. lia.
  - intros [= <- <-]. pose proof (plan_body_PBreak _ _ _ _ _ Eb). lia.
Qed.

Lemma plan_two opts contentLen :
  1 <= MaxSize opts < contentLen -> 0 <= Overlap opts <= Int64.max_int ->
  contentLen < 2 ^ 62 ->
  forall fuel ws q,
    plan fuel opts contentLen 0 = Some (Returned (ws, q)) -> (2 <= length ws)%nat.
Proof.
  intros HM HO HL [|fuel] ws q; simpl; [discriminate|].
  replace (0 <? contentLen) with true by (symmetry; apply Z.ltb_lt; lia).
  destruct (plan_body_sane opts contentLen 0 ltac:(lia) ltac:(lia) HL ltac:(lia))
    as (_ & _ & ->).
  set (q1 := 0 + Z.max 1 (Z.min (MaxSize opts) (contentLen - 0) - Overlap opts)).
  assert (0 < q1 < contentLen) as Hq1 by (subst q1; lia).
  destruct (_ && _).
  - intros [= <- <-]. simpl. lia.
  - destruct fuel as [|fuel]; simpl; [discriminate|].
    replace (q1 <? contentLen) with true by (symmetry; apply Z.ltb_lt; lia).
    destruct (plan_body_sane opts contentLen q1 ltac:(lia) ltac:(lia) HL ltac:(lia))
      as (_ & _ & ->).
    destruct (_ && _).
    + intros [= <- <-]. simpl. lia.
    + destruct (plan fuel opts contentLen _) as [[[ws2 q2]|]|]; try discriminate.
      intros [= <- <-]. simpl. lia.
Qed.

Lemma Chunk_returns_plan opts content cs err :
  Chunk opts content = Some (Returned (cs, err)) ->
  exists ws rs m1,
    Chunk_plan opts (length (elems content)) = Some (Returned ws)
    /\ emit ws (elems content ++ room content) = (rs, m1)
    /\ cs = map (publish m1) rs /\ err = None.
Proof.
  rewrite Chunk_emit.
  destruct (Chunk_plan opts (length (elems content))) as [[ws|]|]; try discriminate.
  destruct (emit ws _) as [rs m1] eqn:Ee. intros [= <- <-].
  exists ws, rs, m1. repeat split. exact Ee.
Qed.

(** [Chunk] never returns more chunks than the content has bytes. Content
    longer than a positive [MaxSize] gives at least two chunks when the
    overlap is not negative. *)
Theorem Chunk_count opts content cs err :
  Chunk opts content = Some (Returned (cs, err)) ->
  (length cs <= length (elems content))%nat
  /\ (1 <= MaxSize opts < Z.of_nat (length (elems content)) ->
      0 <= Overlap opts <= Int64.max_int ->
      Z.of_nat (length (elems content)) < 2 ^ 62 ->
      (2 <= length cs)%nat).
Proof.
  intros Hc. destruct (Chunk_returns_plan _ _ _ _ Hc) as (ws & rs & m1 & Hp & Ee & -> & _).
  rewrite length_map, (emit_count _ _ _ _ Ee). clear Hc Ee.
  revert Hp. unfold Chunk_plan, Chunk_plan_at. set (len := length (elems content)).
  destruct (Nat.eqb_spec len 0) as [E0|Hne].
  - intros [= <-]. split; [simpl; lia | lia].
  - destruct (_ && _) eqn:Efit.
    + intros [= <-]. apply andb_true_iff in Efit. destruct Efit as [_ Efit].
      apply Z.leb_le in Efit. split; [simpl; lia | lia].
    + destruct (plan (S len) opts (Z.of_nat len) 0) as [[[ws1 q]|]|] eqn:Ep; try discriminate.
      intros [= <-]. split.
      * pose proof (plan_count opts (Z.of_nat len) (S len) 0 ws1 q
                      ltac:(unfold Int64.max_int; lia) Ep). lia.
      * intros HM HO HL. exact (plan_two opts (Z.of_nat len) HM HO HL _ _ _ Ep).
Qed.

(** *** What the chunks say about lines *)

Lemma emit_lines ws : forall m cs m',
  emit ws m = (cs, m') -> Forall (fun c => rStartLine c = 1 /\ rEndLine c = 1) cs.
Proof.
  induction ws as [|[off n] ws IH]; intros m cs m'; simpl.
  - intros [= <- <-]. constructor.
  - destruct (newChunk m off n) as [c m1] eqn:Ec.
    destruct (emit ws m1) as [cs1 m2] eqn:Ee. intros [= <- <-].
    destruct (newChunk_inv _ _ _ _ _ Ec) as (_ & Hs & He & _).
    constructor; [split; assumption | exact (IH _ _ _ Ee)].
Qed.

(** [Chunk] never returns an error, and every chunk it returns has
    [StartLine = 1] and [EndLine = 1], wherever in the content it was cut
    and however many lines it holds. *)
Theorem Chunk_line_numbers opts content cs err :
  Chunk opts content = Some (Returned (cs, err)) ->
  err = None
  /\ Forall (fun c => types.StartLine c = 1 /\ types.EndLine c = 1) cs.
Proof.
  intros Hc. destruct (Chunk_returns_plan _ _ _ _ Hc) as (ws & rs & m1 & _ & Ee & -> & ->).
  split; [reflexivity|]. apply Forall_fmap.
  eapply Forall_impl; [exact (emit_lines _ _ _ _ Ee)|]. intros c Hl. exact Hl.
Qed.

(** *** The options that are not read *)

Lemma plan_same_sizes opts opts' contentLen :
  MaxSize opts = MaxSize opts' -> Overlap opts = Overlap opts' ->
  forall fuel p, plan fuel opts contentLen p = plan fuel opts' contentLen p.
Proof.
  intros HM HO. induction fuel as [|fuel IH]; intros p; simpl; [reflexivity|].
  assert (plan_body opts contentLen p = plan_body opts' contentLen p) as ->.
  { unfold plan_body, chunkSizeAt, advanceOf. rewrite HM, HO. reflexivity. }
  destruct (p <? contentLen); [|reflexivity].
  destruct (plan_body opts' contentLen p); try reflexivity. rewrite IH. reflexivity.
Qed.

(** [Chunk] reads [MaxSize] and [Overlap] only: two chunkers that agree on
    them give the same result on the same content, whatever their
    [MaxTokens] and [PreserveML] are. No token limit is enforced. *)
Theorem Chunk_reads_sizes_only opts opts' content :
  MaxSize opts = MaxSize opts' -> Overlap opts = Overlap opts' ->
  Chunk opts content = Chunk opts' content.
Proof.
  intros HM HO. rewrite !Chunk_emit. unfold Chunk_plan, Chunk_plan_at.
  rewrite (plan_same_sizes opts opts' _ HM HO), HM. reflexivity.
Qed.

(** *** Counting tokens *)

Lemma countTokens_from_shift rs : forall inWord count,
  countTokens_from rs inWord count = count + countTokens_from rs inWord 0.
Proof.
  induction rs as [|r rs IH]; intros inWord count; simpl; [lia|].
  destruct (IsSpace r); [apply IH|].
  destruct inWord; simpl; [apply IH|].
  rewrite (IH true (count + 1)), (IH true (0 + 1)). lia.
Qed.

Lemma countTokens_from_space a sp b : forall inWord count,
  IsSpace sp = true ->
  countTokens_from (a ++ sp :: b) inWord count
  = countTokens_from b false (countTokens_from a inWord count).
Proof.
  induction a as [|r a IH]; intros inWord count Hsp; simpl.
  - rewrite Hsp. reflexivity.
  - destruct (IsSpace r); [apply IH; exact Hsp|].
    destruct inWord; simpl; apply IH; exact Hsp.
Qed.

Lemma countTokens_from_word a : forall inWord count,
  Forall (fun r => IsSpace r = false) a ->
  countTokens_from a inWord count
  = if inWord then count else if a is [] then count else count + 1.
Proof.
  induction a as [|r a IH]; intros inWord count Hall; simpl.
  - destruct inWord; reflexivity.
  - inversion Hall as [|? ? Hr Ha]; subst. rewrite Hr.
    destruct inWord; simpl; rewrite (IH true _ Ha); reflexivity.
Qed.

Lemma countTokens_from_bounds rs : forall inWord,
  0 <= countTokens_from rs inWord 0 <= Z.of_nat (length (inkOf rs)).
Proof.
  induction rs as [|r rs IH]; intros inWord; simpl; [lia|].
  unfold inkOf in *. simpl. destruct (IsSpace r); simpl; [apply IH|].
  destruct inWord; simpl.
  - specialize (IH true). lia.
  - rewrite countTokens_from_shift. specialize (IH true). lia.
Qed.

(** The loop of [countTokens] counts the words of a text: nothing for white
    space alone, one for a run of runes without white space, and for two
    texts with a white-space rune between them the sum of their counts. It
    never counts more than there are runes that are not white space. *)
Theorem countTokens_counts_words (a b : list rune) (sp : rune) :
  IsSpace sp = true ->
  countTokens_from (a ++ sp :: b) false 0
  = countTokens_from a false 0 + countTokens_from b false 0
  /\ (Forall (fun r => IsSpace r = true) a -> countTokens_from a false 0 = 0)
  /\ (a <> [] -> Forall (fun r => IsSpace r = false) a -> countTokens_from a false 0 = 1)
  /\ 0 <= countTokens_from a false 0 <= Z.of_nat (length (inkOf a)).
Proof.
  intros Hsp. split; [|split; [|split]].
  - rewrite countTokens_from_space by exact Hsp. apply countTokens_from_shift.
  - intros Hall. pose proof (countTokens_from_bounds a false) as Hb.
    assert (inkOf a = []) as E.
    { unfold inkOf. induction Hall as [|r a' Hr _ IH]; simpl; [reflexivity|].
      rewrite Hr. simpl. apply IH. pose proof (countTokens_from_bounds a' false). lia. }
    rewrite E in Hb. simpl in Hb. lia.
  - intros Hne Hall. rewrite countTokens_from_word by exact Hall.
    destruct a; [contradiction | reflexivity].
  - apply countTokens_from_bounds.
Qed.

End Facts.

End ChunkMore.

(** * The rest of the chunker *)

Module ChunkerMore.
Import processor chunker ChunkerFacts.

Lemma byte_eqb_true a b : Byte.eqb a b = true <-> a = b.
Proof. split; [apply Byte.byte_dec_bl | apply Byte.byte_dec_lb]. Qed.

Lemma byte_eqb_false a b : Byte.eqb a b = false <-> a <> b.
Proof.
  rewrite <- byte_eqb_true. destruct (Byte.eqb a b); split; congruence.
Qed.

(** *** [bytes.IndexByte] *)

Lemma IndexByte_range data c : -1 <= IndexByte data c < Z.of_nat (length data).
Proof.
  induction data as [|b data IH]; simpl; [lia|].
  destruct (Byte.eqb b c); [lia|].
  destruct (Z.ltb_spec (IndexByte data c) 0); lia.
Qed.

Lemma IndexByte_found data c : forall i,
  0 <= i -> IndexByte data c = i ->
  exists a rest, data = a ++ c :: rest /\ Z.of_nat (length a) = i /\ c ∉ a.
Proof.
  induction data as [|b data IH]; simpl; intros i Hi E; [lia|].
  destruct (Byte.eqb b c) eqn:Eb.
  - apply byte_eqb_true in Eb. subst b. exists [], data. subst i.
    repeat split. apply not_elem_of_nil.
  - apply byte_eqb_false in Eb.
    destruct (Z.ltb_spec (IndexByte data c) 0) as [Hn|Hn]; [lia|].
    destruct (IH (IndexByte data c) Hn eq_refl) as (a & rest & -> & Hlen & Hnot).
    exists (b :: a), rest. repeat split; [simpl; lia|].
    intros Hin. apply elem_of_cons in Hin. destruct Hin as [->|Hin]; [congruence | auto].
Qed.

Lemma IndexByte_absent data c : IndexByte data c < 0 -> c ∉ data.
Proof.
  induction data as [|b data IH]; simpl; intros Hneg; [apply not_elem_of_nil|].
  destruct (Byte.eqb b c) eqn:Eb; [lia|]. apply byte_eqb_false in Eb.
  destruct (Z.ltb_spec (IndexByte data c) 0) as [Hn|Hn]; [|lia].
  intros Hin. apply elem_of_cons in Hin. destruct Hin as [->|Hin]; [congruence|].
  exact (IH Hn Hin).
Qed.

(** *** [countLines] *)

Lemma countLines_from_shift text : forall count,
  countLines_from text count = count + countLines_from text 0.
Proof.
  induction text as [|b text IH]; intros count; simpl; [lia|].
  destruct (Byte.eqb b newline); [|apply IH].
  rewrite (IH (count + 1)), (IH (0 + 1)). lia.
Qed.

Lemma countLines_from_filter text :
  countLines_from text 0
  = Z.of_nat (length (List.filter (fun b => Byte.eqb b newline) text)).
Proof.
  induction text as [|b text IH]; simpl; [reflexivity|].
  destruct (Byte.eqb b newline); simpl; [|exact IH].
  rewrite countLines_from_shift, IH. lia.
Qed.

(** [countLines] is one more than the number of newline bytes: one for
    empty text, and one less than the sum for two texts put end to end. *)
Theorem countLines_spec (a b : list byte) :
  countLines a = 1 + Z.of_nat (length (List.filter (fun x => Byte.eqb x newline) a))
  /\ countLines [] = 1
  /\ countLines (a ++ b) = countLines a + countLines b - 1.
Proof.
  unfold countLines. rewrite !countLines_from_filter.
  rewrite List.filter_app, length_app. repeat split; simpl; lia.
Qed.

(** *** [splitMarkup] *)

(** [splitMarkup] never reports an error and never advances beyond the
    data. A token it returns comes with an advance of at least one byte,
    and the bytes it advances over are the token, or the token and the
    newline behind it; a token cut at a newline holds no newline. At the
    end of the input it returns a token for any data that is left. Without
    a token it asks for more data. On empty data before the end of the
    input it panics. *)
Theorem splitMarkup_contract (data : list byte) (atEOF : bool) :
  (data = [] -> atEOF = false -> splitMarkup data atEOF = Panicked)
  /\ (data = [] -> atEOF = true -> splitMarkup data atEOF = Returned (0, None, None))
  /\ (data <> [] ->
      exists advance token,
        splitMarkup data atEOF = Returned (advance, token, None)
        /\ match token with
           | None => advance = 0 /\ atEOF = false /\ newline ∉ data
           | Some t =>
               0 < advance <= Z.of_nat (length data)
               /\ (take (Z.to_nat advance) data = t
                   \/ take (Z.to_nat advance) data = t ++ [newline])
               /\ (head data <> Some "<"%byte \/ ">"%byte ∉ data ->
                   newline ∉ t)
           end).
Proof.
  split; [intros -> ->; reflexivity|]. split; [intros -> ->; reflexivity|].
  intros Hne. unfold splitMarkup.
  replace (atEOF && (length data =? 0)%nat) with false
    by (destruct data; [contradiction | destruct atEOF; reflexivity]).
  destruct data as [|d0 data']; [contradiction|]. cbv beta iota.
  set (data := d0 :: data') in *.
  pose proof (IndexByte_range data ">"%byte) as Hgt.
  pose proof (IndexByte_range data newline) as Hnl.
  assert (exists advance token,
            (if 0 <=? IndexByte data newline
             then Returned (IndexByte data newline + 1,
                            Some (take (Z.to_nat (IndexByte data newline)) data), None)
             else if atEOF then Returned (Z.of_nat (length data), Some data, None)
             else Returned (0, None, None))
            = Returned (advance, token, @None string)
            /\ match token with
               | None => advance = 0 /\ atEOF = false /\ newline ∉ data
               | Some t =>
                   0 < advance <= Z.of_nat (length data)
                   /\ (take (Z.to_nat advance) data = t
                       \/ take (Z.to_nat advance) data = t ++ [newline])
                   /\ newline ∉ t
               end) as Hlines.
  { destruct (Z.leb_spec 0 (IndexByte data newline)) as [Hi|Hi].
    - destruct (IndexByte_found data newline _ Hi eq_refl) as (a & rest & E & Hlen & Hnot).
      eexists _, (Some _). split; [reflexivity|]. split; [lia|].
      assert (take (Z.to_nat (IndexByte data newline)) data = a) as Ea.
      { rewrite <- Hlen, Nat2Z.id. rewrite E. apply take_app_length. }
      rewrite Ea. split; [|exact Hnot]. right.
      replace (Z.to_nat (IndexByte data newline + 1)) with (S (length a)) by lia.
      rewrite E. rewrite (take_S_r _ _ newline).
      + rewrite take_app_length. reflexivity.
      + rewrite lookup_app_r by lia. rewrite Nat.sub_diag. reflexivity.
    - pose proof (IndexByte_absent data newline Hi) as Hnot.
      destruct atEOF.
      + eexists _, (Some _). split; [reflexivity|].
        split; [subst data; simpl length; lia|].
        split; [|exact Hnot]. left. rewrite Nat2Z.id. apply take_ge. lia.
      + eexists _, None. split; [reflexivity|]. auto. }
  cbv zeta.
  destruct (Byte.eqb d0 "<"%byte) eqn:Ed.
  - destruct (Z.leb_spec 0 (IndexByte data ">"%byte)) as [Hi|Hi].
    + destruct (IndexByte_found data ">"%byte _ Hi eq_refl) as (a & rest & E & Hlen & Hnot).
      assert (">"%byte ∈ data) as Hin by (rewrite E; apply elem_of_app; right; apply list_elem_of_here).
      apply byte_eqb_true in Ed.
      assert (forall P : Prop, (head data <> Some "<"%byte \/ ">"%byte ∉ data -> P)) as Hvac.
      { intros P [Hh|Hh]; [subst data; simpl in Hh; congruence | contradiction]. }
      destruct (_ && _) eqn:Enl.
      * eexists _, (Some _). split; [reflexivity|].
        apply andb_true_iff in Enl. destruct Enl as [Hlt Hb]. apply Z.ltb_lt in Hlt.
        split; [lia|]. split; [|apply Hvac]. right.
        destruct (data !! Z.to_nat (IndexByte data ">"%byte + 1)) as [b|] eqn:El; [|discriminate].
        apply byte_eqb_true in Hb. subst b.
        replace (Z.to_nat (IndexByte data ">"%byte + 2))
          with (S (Z.to_nat (IndexByte data ">"%byte + 1))) by lia.
        apply take_S_r. exact El.
      * eexists _, (Some _). split; [reflexivity|].
        split; [lia|]. split; [left; reflexivity | apply Hvac].
    + destruct Hlines as (advance & token & E & Hspec).
      exists advance, token. split; [exact E|].
      destruct token as [t|]; [|exact Hspec].
      destruct Hspec as (H1 & H2 & H3). auto.
  - destruct Hlines as (advance & token & E & Hspec).
    exists advance, token. split; [exact E|].
    destruct token as [t|]; [|exact Hspec].
    destruct Hspec as (H1 & H2 & H3). auto.
Qed.

(** *** [getOverlapContent] *)





Section Facts.
Context {text : GoText}.

(** *** [chunkSingleLine] *)

Lemma single_body_stuck opts len s :
  0 <= MaxSize opts <= Overlap opts -> Overlap opts < len - 1 -> len <= Int64.max_int ->
  len <= Z.of_nat (length (mem s)) ->
  pos s = 0 \/ pos s = 1 ->
  exists s',
    single_body opts len s = Next s' /\ pos s' = 1
    /\ length (mem s') = length (mem s) /\ length (chunks s') = S (length (chunks s)).
Proof.
  intros HM HO HL Hcap Hp. unfold single_body. unfold Int64.max_int in HL.
  assert (Int64.add (pos s) (MaxSize opts) = pos s + MaxSize opts) as ->.
  { apply Int64Facts.wrap_id. unfold Int64.in_range, Int64.min_int, Int64.max_int. lia. }
  replace (pos s + MaxSize opts >? len) with false.
  2:{ symmetry. rewrite Z.gtb_ltb. apply Z.ltb_ge. lia. }
  assert (slice_expr (length (mem s)) (pos s) (pos s + MaxSize opts)
          = Some (Z.to_nat (pos s), Z.to_nat (pos s + MaxSize opts - pos s))) as ->
    by (apply slice_expr_Some; repeat split; lia).
  destruct (newChunk _ _ _) as [c m1] eqn:Ec.
  assert (Int64.sub (MaxSize opts) (Overlap opts) = MaxSize opts - Overlap opts) as ->.
  { apply Int64Facts.wrap_id. unfold Int64.in_range, Int64.min_int, Int64.max_int. lia. }
  assert (Int64.add (pos s) (MaxSize opts - Overlap opts)
          = pos s + (MaxSize opts - Overlap opts)) as ->.
  { apply Int64Facts.wrap_id. unfold Int64.in_range, Int64.min_int, Int64.max_int. lia. }
  assert ((if pos s + (MaxSize opts - Overlap opts) <=? 0
           then 1 else pos s + (MaxSize opts - Overlap opts)) = 1) as ->.
  { destruct (Z.leb_spec (pos s + (MaxSize opts - Overlap opts)) 0); lia. }
  assert (Int64.sub len 1 = len - 1) as ->.
  { apply Int64Facts.wrap_id. unfold Int64.in_range, Int64.min_int, Int64.max_int. lia. }
  replace (len - 1 <=? Overlap opts) with false by (symmetry; apply Z.leb_gt; lia).
  eexists. split; [reflexivity|]. simpl.
  split; [reflexivity|]. split; [exact (newChunk_length _ _ _ _ _ Ec)|].
  rewrite length_app. simpl. lia.
Qed.

(** With an overlap that is not smaller than [MaxSize], content of more
    than [Overlap + 1] bytes keeps [chunkSingleLine] in its loop for ever:
    the position is set back to 1 in every round, and no amount of fuel
    lets the loop end. *)
Theorem chunkSingleLine_never_returns opts content :
  0 <= MaxSize opts <= Overlap opts ->
  Overlap opts < Z.of_nat (length (elems content)) - 1 ->
  Z.of_nat (length (elems content)) <= Int64.max_int ->
  forall fuel, chunkSingleLine_run fuel opts content = None.
Proof.
  intros HM HO HL fuel. unfold chunkSingleLine_run.
  replace (Z.of_nat (length (elems content)) <=? MaxSize opts) with false
    by (symmetry; apply Z.leb_gt; lia).
  set (len := Z.of_nat (length (elems content))) in *.
  assert (forall s, len <= Z.of_nat (length (mem s)) -> pos s = 0 \/ pos s = 1 ->
            single_loop fuel opts len s = None) as Hloop.
  { induction fuel as [|fuel IH]; intros s Hcap Hp; simpl; [reflexivity|].
    replace (pos s <? len) with true by (symmetry; apply Z.ltb_lt; lia).
    destruct (single_body_stuck opts len s HM HO HL Hcap Hp) as (s' & -> & Hp' & Hm' & _).
    apply IH; [lia | right; exact Hp']. }
  apply Hloop; [simpl; rewrite length_app; lia | left; reflexivity].
Qed.

Lemma single_loop_returns opts len :
  0 <= Overlap opts < MaxSize opts -> MaxSize opts < 2 ^ 62 -> len < 2 ^ 62 ->
  forall n s, 0 <= pos s -> len <= Z.of_nat (length (mem s)) ->
    (Z.to_nat (len - pos s) <= n)%nat ->
    exists s', forall fuel, (n < fuel)%nat ->
      single_loop fuel opts len s = Some (Returned s').
Proof.
  intros HO HM HL. induction n as [|n IH]; intros s Hp Hcap Hd.
  - exists s. intros [|fuel] Hf; [lia|]. simpl.
    replace (pos s <? len) with false by (symmetry; apply Z.ltb_ge; lia). reflexivity.
  - destruct (Z.ltb_spec (pos s) len) as [Hlt|Hge].
    2:{ exists s. intros [|fuel] Hf; [lia|]. simpl.
        replace (pos s <? len) with false by (symmetry; apply Z.ltb_ge; lia). reflexivity. }
    assert (exists r, single_body opts len s = r
              /\ match r with
                 | Next s' => pos s < pos s' /\ length (mem s') = length (mem s)
                 | Break _ => True
                 | Panic => False
                 end) as (r & Er & Hr).
    { unfold single_body.
      assert (Int64.add (pos s) (MaxSize opts) = pos s + MaxSize opts) as ->.
      { apply Int64Facts.wrap_id. unfold Int64.in_range, Int64.min_int, Int64.max_int. lia. }
      set (end1 := if pos s + MaxSize opts >? len then len else pos s + MaxSize opts).
      assert (pos s <= end1 <= len) as Hend.
      { subst end1. destruct (Z.gtb_spec (pos s + MaxSize opts) len); lia. }
      assert (slice_expr (length (mem s)) (pos s) end1
              = Some (Z.to_nat (pos s), Z.to_nat (end1 - pos s))) as ->
        by (apply slice_expr_Some; repeat split; lia).
      destruct (newChunk _ _ _) as [c m1] eqn:Ec.
      pose proof (newChunk_length _ _ _ _ _ Ec) as Hm1.
      assert (Int64.sub (MaxSize opts) (Overlap opts) = MaxSize opts - Overlap opts) as ->.
      { apply Int64Facts.wrap_id. unfold Int64.in_range, Int64.min_int, Int64.max_int. lia. }
      assert (Int64.add (pos s) (MaxSize opts - Overlap opts)
              = pos s + (MaxSize opts - Overlap opts)) as ->.
      { apply Int64Facts.wrap_id. unfold Int64.in_range, Int64.min_int, Int64.max_int. lia. }
      set (pos1 := pos s + (MaxSize opts - Overlap opts)).
      replace (pos1 <=? 0) with false by (symmetry; apply Z.leb_gt; subst pos1; lia).
      assert (Int64.sub len pos1 = len - pos1) as ->.
      { apply Int64Facts.wrap_id.
        unfold Int64.in_range, Int64.min_int, Int64.max_int. subst pos1. lia. }
      destruct (len - pos1 <=? Overlap opts).
      - destruct (Z.ltb_spec pos1 len) as [Hq|Hq].
        + assert (slice_expr (length m1) pos1 len
                  = Some (Z.to_nat pos1, Z.to_nat (len - pos1))) as ->
            by (apply slice_expr_Some; subst pos1; repeat split; lia).
          destruct (newChunk m1 _ _) as [c2 m2]. eexists. split; [reflexivity | exact I].
        + eexists. split; [reflexivity | exact I].
      - eexists. split; [reflexivity|]. simpl. split; [subst pos1; lia | exact Hm1]. }
    destruct r as [s1|s1|]; [| |contradiction].
    + destruct Hr as (Hprog & Hm).
      destruct (IH s1 ltac:(lia) ltac:(lia) ltac:(lia)) as (s' & Hs').
      exists s'. intros [|fuel] Hf; [lia|]. simpl.
      replace (pos s <? len) with true by (symmetry; apply Z.ltb_lt; lia).
      rewrite Er. apply Hs'. lia.
    + exists s1. intros [|fuel] Hf; [lia|]. simpl.
      replace (pos s <? len) with true by (symmetry; apply Z.ltb_lt; lia).
      rewrite Er. reflexivity.
Qed.

(** With an overlap that is smaller than [MaxSize] and not negative,
    [chunkSingleLine] returns, without an error. Content that is no longer
    than [MaxSize], the empty one too, comes back as one chunk: the
    content as it is, white space and all, and a newline. *)
Theorem chunkSingleLine_returns opts content :
  0 <= Overlap opts < MaxSize opts ->
  Z.of_nat (length (elems content)) < 2 ^ 62 ->
  (exists cs, chunkSingleLine opts content = Some (Returned (cs, None)))
  /\ (Z.of_nat (length (elems content)) <= MaxSize opts ->
      chunkSingleLine opts content
      = Some (Returned ([types.mkChunk (elems content ++ [newline]) 1 1
                           (countTokens (elems content))], None))).
Proof.
  intros HO HL.
  assert (Z.of_nat (length (elems content)) <= MaxSize opts ->
          chunkSingleLine opts content
          = Some (Returned ([types.mkChunk (elems content ++ [newline]) 1 1
                               (countTokens (elems content))], None))) as Hfit.
  { intros Hfit. unfold chunkSingleLine, chunkSingleLine_run.
    replace (Z.of_nat (length (elems content)) <=? MaxSize opts) with true
      by (symmetry; apply Z.leb_le; exact Hfit).
    unfold appendNewline. set (n := length (elems content)).
    destruct (decide (n < length (elems content ++ room content))%nat) as [Hroom|Hfull];
      simpl; unfold publish; simpl.
    - rewrite (read_insert_end _ 0 n) by exact Hroom.
      rewrite read_app_l by (fold n; lia). subst n. rewrite read_all.
      replace (read (<[length (elems content) := newline]> (elems content ++ room content)) 0
                 (length (elems content))) with (elems content); [reflexivity|].
      unfold read. rewrite drop_0, take_insert_ge by lia.
      rewrite take_app_length. reflexivity.
    - rewrite read_app_l by (fold n; lia). subst n. rewrite read_all. reflexivity. }
  split; [|exact Hfit].
  destruct (Z.leb_spec (Z.of_nat (length (elems content))) (MaxSize opts)) as [Hle|Hgt].
  - eexists. apply Hfit. exact Hle.
  - unfold chunkSingleLine, chunkSingleLine_run.
    replace (Z.of_nat (length (elems content)) <=? MaxSize opts) with false
      by (symmetry; apply Z.leb_gt; exact Hgt).
    destruct (single_loop_returns opts (Z.of_nat (length (elems content))) HO ltac:(lia) HL
                (length (elems content))
                (mkState (elems content ++ room content) 0 []))
      as (s' & Hs'); [simpl; lia | simpl; rewrite length_app; lia | simpl; lia |].
    rewrite Hs' by lia. eexists. reflexivity.
Qed.

End Facts.

End ChunkerMore.

(** * The processor *)

Module ProcFacts.
Import processor ptypes proc ChunkerFacts ChunkMore.

Section Facts.
Context {text : GoText}.


Lemma Chunk_run_returns fuel opts content :
  0 <= MaxSize opts -> - 2 ^ 62 <= Overlap opts <= Int64.max_int ->
  Z.of_nat (length (elems content)) < 2 ^ 62 ->
  (length (elems content) < fuel)%nat ->
  exists s, Chunk_run fuel opts content = Some (Returned s).
Proof.
  intros HM HO HL Hf.
  destruct (Chunk_plan_returns opts (length (elems content)) HM HO HL) as (ws & Hws).
  pose proof (Chunk_run_emit fuel opts content) as E. rewrite (Hws fuel Hf) in E.
  destruct (emit ws _) as [cs m1].
  destruct (Chunk_run fuel opts content) as [[s|]|]; simpl in E; try discriminate.
  exists s. reflexivity.
Qed.


(** *** [Process] *)

Section Files.
Variable ReadFile : string -> ByteSlice * error.
Variable DetectLanguage : string -> list byte -> string * error.
Variable stripComments : list byte -> string -> ByteSlice * error.

(** A file that is read without stripping comments, by a processor with
    a positive [MaxChunkSize] and an overlap of at least [-2^62]: up to
    [MaxChunkSize] bytes come back as they are, without chunks. A longer
    file comes back with at least one chunk and no more chunks than bytes,
    at least two when the overlap is not negative, and with its content
    changed by the chunker: of the same length, every byte the one of the
    file or a newline written over it. *)
Theorem Process_returns_chunked_content p entry content :
  ShouldProcess p entry = true ->
  ReadFile (Path entry) = (content, None) ->
  StripComments (opts p) = false ->
  0 < MaxChunkSize (opts p) -> - 2 ^ 62 <= ChunkOverlap (opts p) <= Int64.max_int ->
  Z.of_nat (length (elems content)) < 2 ^ 62 ->
  exists pc,
    Process ReadFile DetectLanguage stripComments p entry = Some (Returned (pc, None))
    /\ Path (Entry pc) = Path entry
    /\ length (Content pc) = length (elems content)
    /\ (forall q, (q < length (elems content))%nat ->
          Content pc !! q = elems content !! q \/ Content pc !! q = Some newline)
    /\ (Z.of_nat (length (elems content)) <= MaxChunkSize (opts p) ->
        Content pc = elems content /\ Chunks pc = [])
    /\ (MaxChunkSize (opts p) < Z.of_nat (length (elems content)) ->
        (1 <= length (Chunks pc) <= length (elems content))%nat
        /\ (0 <= ChunkOverlap (opts p) -> (2 <= length (Chunks pc))%nat)).
Proof.
  intros Hsp Hread Hstrip HM HO HL. unfold Process. rewrite Hsp, Hread, Hstrip. simpl negb.
  cbv iota.
  set (entry1 := if String.eqb (Language entry) "" then _ else entry).
  assert (Path entry1 = Path entry) as Hpath.
  { subst entry1. destruct (String.eqb _ _); [|reflexivity].
    destruct (DetectLanguage _ _) as [lang [e|]]; reflexivity. }
  destruct (Z.gtb_spec (Z.of_nat (length (elems content))) (MaxChunkSize (opts p))) as [Hbig|Hfit].
  - unfold createChunks_run.
    destruct (Chunk_run_returns (S (length (elems content))) (chunkerOptions p) content)
      as (s & Hs); [simpl; lia | simpl; exact HO | exact HL | lia |].
    rewrite Hs. simpl result_of. cbv iota.
    destruct (Chunk_run_state _ _ _ _ Hs) as (ws & Hplan & Ee).
    destruct (emit_writes _ _ _ _ Ee) as (ps & _ & _ & Hm).
    eexists. split; [reflexivity|]. simpl.
    split; [exact Hpath|].
    assert (length (mem s) = length (elems content ++ room content)) as Hlen
      by (rewrite Hm; apply writeNewlines_length).
    split; [rewrite length_take, Hlen, length_app; lia|].
    split; [|split; [lia|]].
    + intros q Hq. rewrite lookup_take_lt by exact Hq.
      rewrite Hm. destruct (writeNewlines_lookup ps (elems content ++ room content) q) as [E|E].
      * left. rewrite E. apply lookup_app_l. exact Hq.
      * right. exact E.
    + intros _. rewrite length_map, (emit_count _ _ _ _ Ee).
      revert Hplan. unfold Chunk_plan_at. simpl MaxSize.
      replace (length (elems content) =? 0)%nat with false
        by (symmetry; apply Nat.eqb_neq; lia).
      replace (Z.of_nat (length (elems content)) <=? MaxChunkSize (opts p)) with false
        by (symmetry; apply Z.leb_gt; lia).
      rewrite andb_false_r.
      destruct (plan _ _ _ 0) as [[[ws1 q1]|]|] eqn:Ep; try discriminate.
      intros [= <-]. split; [split|].
      * exact (plan_one (chunkerOptions p) (Z.of_nat (length (elems content))) _ _ _
                 ltac:(lia) Ep).
      * pose proof (plan_count (chunkerOptions p) (Z.of_nat (length (elems content))) _ 0 ws1 q1
                      ltac:(unfold Int64.max_int; lia) Ep). lia.
      * intros Hov.
        exact (plan_two (chunkerOptions p) (Z.of_nat (length (elems content)))
                 ltac:(simpl; lia) ltac:(simpl; lia) HL _ _ _ Ep).
  - eexists. split; [reflexivity|]. simpl.
    split; [exact Hpath|]. split; [reflexivity|].
    split; [intros q _; left; reflexivity|]. split; [intros _; split; reflexivity | lia].
Qed.

(** Whether chunks are cut is decided on the length of the file, but it is
    the stripped content that is chunked. A file longer than
    [MaxChunkSize] whose stripped content fits in [MaxChunkSize] comes
    back with one chunk, the stripped content trimmed and a newline, and
    with no chunk at all when nothing is left of it. *)
Theorem Process_chunks_stripped_content p entry content stripped :
  ShouldProcess p entry = true ->
  ReadFile (Path entry) = (content, None) ->
  StripComments (opts p) = true ->
  (forall language, stripComments (elems content) language = (stripped, None)) ->
  0 < MaxChunkSize (opts p) < Z.of_nat (length (elems content)) ->
  Z.of_nat (length (elems stripped)) <= MaxChunkSize (opts p) ->
  exists pc,
    Process ReadFile DetectLanguage stripComments p entry = Some (Returned (pc, None))
    /\ length (Content pc) = length (elems stripped)
    /\ (elems stripped = [] -> Chunks pc = [])
    /\ (elems stripped <> [] ->
        exists tokens,
          Chunks pc = [types.mkChunk (TrimSpace (elems stripped) ++ [newline]) 1 1 tokens]).
Proof.
  intros Hsp Hread Hstrip Hs HM Hfit. unfold Process.
  rewrite Hsp, Hread, Hstrip, Hs. simpl negb. cbv iota.
  replace (Z.of_nat (length (elems content)) >? MaxChunkSize (opts p)) with true
    by (symmetry; rewrite Z.gtb_ltb; apply Z.ltb_lt; lia).
  unfold createChunks_run, Chunk_run. simpl MaxSize.
  set (n := length (elems stripped)) in *.
  destruct (Nat.eqb_spec n 0) as [E0|Hne].
  - eexists. split; [reflexivity|]. simpl. rewrite E0, take_0.
    split; [reflexivity|]. split; [reflexivity|].
    intros Hn. exfalso. apply Hn. subst n. destruct (elems stripped); [reflexivity | discriminate].
  - replace (0 <? MaxChunkSize (opts p)) with true by (symmetry; apply Z.ltb_lt; lia).
    replace (Z.of_nat n <=? MaxChunkSize (opts p)) with true by (symmetry; apply Z.leb_le; lia).
    simpl andb. cbv iota.
    destruct (newChunk (elems stripped ++ room stripped) 0 n) as [c m1] eqn:Ec.
    destruct (newChunk_inv _ _ _ _ _ Ec) as (Ea & E1 & E2 & _).
    pose proof (newChunk_length _ _ _ _ _ Ec) as Hlen.
    eexists. split; [reflexivity|]. simpl.
    split; [rewrite length_take, Hlen, length_app; fold n; lia|].
    split; [intros E; subst n; rewrite E in Hne; simpl in Hne; congruence|].
    intros _. exists (rTokenCount c). unfold publish.
    rewrite (appendTrimmed_deref _ _ _ _ _ Ea), E1, E2.
    subst n. rewrite read_app_l by lia. rewrite read_all. reflexivity.
Qed.

End Files.

End Facts.

End ProcFacts.

(** * Stripping comments *)

Module LanguageFacts.
Import processor language.

(** [sep] occurs in [l]. *)
Definition occurs (sep l : list byte) : Prop := exists x y, l = x ++ sep ++ y.

Lemma eqb_byte_true a b : Byte.eqb a b = true <-> a = b.
Proof. split; [apply Byte.byte_dec_bl | apply Byte.byte_dec_lb]. Qed.

Lemma hasPrefix_spec p : forall s, hasPrefix s p = true <-> exists y, s = p ++ y.
Proof.
  induction p as [|c p IH]; intros s; simpl.
  - split; [intros _; exists s; reflexivity | intros _; reflexivity].
  - destruct s as [|b s]; [split; [discriminate | intros (y & [=])]|].
    rewrite andb_true_iff, eqb_byte_true, IH. split.
    + intros (-> & y & ->). exists y. reflexivity.
    + intros (y & [= -> ->]). split; [reflexivity | exists y; reflexivity].
Qed.

Lemma Index_range s sep : -1 <= Index s sep.
Proof.
  induction s as [|b s IH]; simpl.
  - destruct (hasPrefix [] sep); lia.
  - destruct (hasPrefix (b :: s) sep); [lia|].
    destruct (Z.ltb_spec (Index s sep) 0); lia.
Qed.

Lemma Index_le_occurrence sep x : forall s y,
  s = x ++ sep ++ y -> 0 <= Index s sep <= Z.of_nat (length x).
Proof.
  induction x as [|c x IH]; intros s y ->.
  - assert (hasPrefix ([] ++ sep ++ y) sep = true) as E
      by (apply hasPrefix_spec; exists y; reflexivity).
    destruct (sep ++ y) eqn:El; simpl in *; rewrite E; simpl; lia.
  - simpl. destruct (hasPrefix (c :: x ++ sep ++ y) sep); [lia|].
    specialize (IH _ y eq_refl).
    destruct (Z.ltb_spec (Index (x ++ sep ++ y) sep) 0); lia.
Qed.

Lemma Index_found s sep : 0 <= Index s sep -> occurs sep s.
Proof.
  induction s as [|b s IH]; simpl.
  - destruct (hasPrefix [] sep) eqn:E; [|lia]. intros _.
    apply hasPrefix_spec in E. destruct E as (y & E). exists [], y. exact E.
  - destruct (hasPrefix (b :: s) sep) eqn:E.
    + intros _. apply hasPrefix_spec in E. destruct E as (y & E). exists [], y. exact E.
    + destruct (Z.ltb_spec (Index s sep) 0) as [|Hi]; [lia|]. intros _.
      destruct (IH Hi) as (x & y & ->). exists (b :: x), y. reflexivity.
Qed.

Lemma Index_absent s sep : ~ occurs sep s -> Index s sep = -1.
Proof.
  intros Hno. pose proof (Index_range s sep).
  destruct (Z_lt_ge_dec (Index s sep) 0) as [|Hge]; [lia|].
  exfalso. apply Hno, Index_found. lia.
Qed.

Lemma occurs_infix sep l k n : occurs sep (take n (drop k l)) -> occurs sep l.
Proof.
  intros (x & y & E). exists (take k l ++ x), (y ++ drop n (drop k l)).
  rewrite <- (take_drop k l) at 1. rewrite <- (take_drop n (drop k l)) at 1.
  rewrite E, <- !app_assoc. reflexivity.
Qed.

Lemma occurs_take sep l n : occurs sep (take n l) -> occurs sep l.
Proof. intros H. apply (occurs_infix sep l 0 n). rewrite drop_0. exact H. Qed.

Lemma occurs_drop sep l k : occurs sep (drop k l) -> occurs sep l.
Proof.
  intros H. apply (occurs_infix sep l k (length l)). rewrite take_ge; [exact H|].
  rewrite length_drop. lia.
Qed.

(** What stands before the first occurrence holds none. *)
Lemma occurs_before_first s sep :
  sep <> [] -> ~ occurs sep (take (Z.to_nat (Index s sep)) s).
Proof.
  intros Hsep (x & y & E).
  assert (length (take (Z.to_nat (Index s sep)) s) = (length x + length sep + length y)%nat)
    as Hlen by (rewrite E, !length_app; lia).
  rewrite length_take in Hlen.
  assert (s = x ++ sep ++ (y ++ drop (Z.to_nat (Index s sep)) s)) as Es.
  { rewrite <- (take_drop (Z.to_nat (Index s sep)) s) at 1. rewrite E, <- !app_assoc.
    reflexivity. }
  pose proof (Index_le_occurrence sep x s _ Es).
  destruct sep; [congruence|]. simpl in Hlen. lia.
Qed.

Lemma occurs_cons sep c l : occurs sep l -> occurs sep (c :: l).
Proof. intros (x & y & ->). exists (c :: x), y. reflexivity. Qed.

(** An indentation before a text brings no comment marker. *)
Lemma occurs_behind_blanks c sep' a t :
  blankByte c = false -> Forall (fun b => blankByte b = true) a ->
  occurs (c :: sep') (a ++ t) -> occurs (c :: sep') t.
Proof.
  intros Hc Ha. induction Ha as [|b a Hb _ IH]; [auto|].
  intros (x & y & E). destruct x as [|x0 x].
  - simpl in E. injection E as -> _. congruence.
  - simpl in E. injection E as _ E. apply IH. exists x, y. exact E.
Qed.

Lemma prefix_before_newline sep : forall l1 l2 y,
  sep ++ y = l1 ++ newline :: l2 -> newline ∉ sep -> exists y1, l1 = sep ++ y1.
Proof.
  induction sep as [|c sep IH]; intros l1 l2 y E Hnl; [exists l1; reflexivity|].
  destruct l1 as [|b l1]; simpl in E.
  - injection E as -> _. exfalso. apply Hnl, list_elem_of_here.
  - injection E as -> E. destruct (IH l1 l2 y E) as (y1 & ->).
    + intros Hin. apply Hnl, list_elem_of_further, Hin.
    + exists y1. reflexivity.
Qed.

(** Two texts with a newline between them hold a marker only where one of
    them does. *)
Lemma occurs_join sep l1 : forall l2,
  sep <> [] -> newline ∉ sep ->
  occurs sep (l1 ++ newline :: l2) -> occurs sep l1 \/ occurs sep l2.
Proof.
  induction l1 as [|c l1 IH]; intros l2 Hne Hnl (x & y & E).
  - destruct x as [|x0 x]; simpl in E.
    + destruct sep as [|s0 sep]; [congruence|]. simpl in E. injection E as <- _.
      exfalso. apply Hnl, list_elem_of_here.
    + injection E as _ ->. right. exists x, y. reflexivity.
  - destruct x as [|x0 x]; simpl in E.
    + destruct (prefix_before_newline sep (c :: l1) l2 y (eq_sym E) Hnl) as (y1 & ->).
      left. exists [], y1. reflexivity.
    + injection E as _ E. destruct (IH l2 Hne Hnl) as [H|H].
      * exists x, y. exact E.
      * left. apply occurs_cons. exact H.
      * right. exact H.
Qed.

Lemma TrimLeft_suffix line : exists a, line = a ++ TrimLeft line /\ Forall (fun b => blankByte b = true) a.
Proof.
  induction line as [|b line (a & E & Ha)]; simpl.
  - exists []. split; [reflexivity | constructor].
  - destruct (blankByte b) eqn:Eb.
    + exists (b :: a). split; [simpl; rewrite <- E; reflexivity | constructor; assumption].
    + exists []. split; [reflexivity | constructor].
Qed.

Lemma getIndentation_blank line : Forall (fun b => blankByte b = true) (getIndentation line).
Proof.
  unfold getIndentation. destruct (TrimLeft_suffix line) as (a & E & Ha).
  rewrite E at 1 3. rewrite length_app.
  replace (length a + length (TrimLeft line) - length (TrimLeft line))%nat with (length a) by lia.
  rewrite take_app_length. exact Ha.
Qed.


Lemma TrimRight_prefix s : exists k, TrimRight s = take k s.
Proof.
  induction s as [|b s (k & IH)]; simpl; [exists O; reflexivity|].
  destruct (TrimRight s) as [|c r] eqn:E.
  - destruct (Byte.eqb b newline); [exists O; reflexivity | exists 1%nat; simpl; rewrite take_0; reflexivity].
  - exists (S k). simpl. rewrite <- IH. reflexivity.
Qed.

Section Facts.
Context {text : GoText}.

Lemma TrimSpace_infix sep s : occurs sep (TrimSpace s) -> occurs sep s.
Proof.
  unfold TrimSpace. destruct (trimSpaceBounds s) as [[lo hi]|].
  - apply occurs_infix.
  - intros (x & y & E). destruct x; destruct sep; try discriminate.
    exists [], s. reflexivity.
Qed.

(** *** A comment that ends on its line *)





Lemma StripComments_TrimRight lines scanErr :
  fst (StripComments lines scanErr)
  = TrimRight (result (fold_left stripLine lines (mkState [] false false))).
Proof.
  unfold StripComments.
  destruct (result (fold_left stripLine lines _)) as [|b r]; reflexivity.
Qed.


(** *** No marker is left *)

Definition clean (l : list byte) : Prop := ~ occurs slashes l /\ ~ occurs opening l.

Lemma clean_join r l : clean r -> clean l -> clean (r ++ newline :: l).
Proof.
  intros (R1 & R2) (L1 & L2). split; intros H.
  - apply occurs_join in H; [tauto | discriminate |].
    intros Hin. apply elem_of_cons in Hin. destruct Hin as [Hin|Hin]; [discriminate|].
    apply elem_of_cons in Hin. destruct Hin as [Hin|Hin]; [discriminate|].
    apply elem_of_nil in Hin. exact Hin.
  - apply occurs_join in H; [tauto | discriminate |].
    intros Hin. apply elem_of_cons in Hin. destruct Hin as [Hin|Hin]; [discriminate|].
    apply elem_of_cons in Hin. destruct Hin as [Hin|Hin]; [discriminate|].
    apply elem_of_nil in Hin. exact Hin.
Qed.

Lemma clean_nil : clean [].
Proof.
  split; intros (x & y & E); destruct x; discriminate.
Qed.

Lemma clean_emptyLine st : clean (result st) -> clean (result (emptyLine st)).
Proof.
  intros Hc. unfold emptyLine. destruct (lastLineWasEmpty st); simpl; [exact Hc|].
  apply clean_join; [exact Hc | exact clean_nil].
Qed.

Lemma clean_writeLine st line :
  clean (result st) -> clean line -> clean (result (writeLine st line)).
Proof.
  intros Hr Hl. unfold writeLine. destruct (isEmpty _); [apply clean_emptyLine; exact Hr|].
  simpl. destruct (result st) as [|b r] eqn:Er; simpl; [exact Hl|].
  replace (b :: (r ++ [newline]) ++ line) with ((b :: r) ++ newline :: line)
    by (simpl; rewrite <- app_assoc; reflexivity).
  apply clean_join; assumption.
Qed.

(** The line cut before a marker, behind the indentation of the line. *)
Lemma cut_no_marker sep0 sep' indent line :
  blankByte sep0 = false -> Forall (fun b => blankByte b = true) indent ->
  0 <= Index line (sep0 :: sep') ->
  ~ occurs (sep0 :: sep')
      (indent ++ TrimSpace (take (Z.to_nat (Index line (sep0 :: sep'))) line)).
Proof.
  intros Hs Hi Hidx H. apply (occurs_behind_blanks _ _ _ _ Hs Hi) in H.
  apply TrimSpace_infix in H.
  exact (occurs_before_first line (sep0 :: sep') ltac:(discriminate) H).
Qed.

Lemma cut_keeps_clean sep0 sep' indent line n :
  blankByte sep0 = false -> Forall (fun b => blankByte b = true) indent ->
  ~ occurs (sep0 :: sep') line ->
  ~ occurs (sep0 :: sep') (indent ++ TrimSpace (take n line)).
Proof.
  intros Hs Hi Hno H. apply (occurs_behind_blanks _ _ _ _ Hs Hi) in H.
  apply TrimSpace_infix, occurs_take in H. exact (Hno H).
Qed.

Lemma clean_stripLine st line : clean (result st) -> clean (result (stripLine st line)).
Proof.
  intros Hr. unfold stripLine.
  pose proof (getIndentation_blank line) as Hind. set (indent := getIndentation line) in *.
  destruct (isEmpty (TrimSpace line)); [apply clean_emptyLine; exact Hr|].
  assert (forall st1 line1, result st1 = result st ->
            clean (result match openComment indent st1 line1 with
                          | Continue st2 => st2
                          | Go st2 line2 =>
                              match lineComment indent st2 line2 with
                              | Continue st3 => st3
                              | Go st3 line3 => writeLine st3 line3
                              end
                          end)) as Hrest.
  { intros st1 line1 E1. unfold openComment.
    assert (forall st2 line2, result st2 = result st -> ~ occurs opening line2 ->
              clean (result match lineComment indent st2 line2 with
                            | Continue st3 => st3
                            | Go st3 line3 => writeLine st3 line3
                            end)) as Hlast.
    { intros st2 line2 E2 Hno. unfold lineComment.
      destruct (Z.leb_spec 0 (Index line2 slashes)) as [Hi|Hi].
      - destruct (isEmpty _); [rewrite E2; exact Hr|].
        apply clean_writeLine; [rewrite E2; exact Hr|]. split.
        + apply cut_no_marker; [reflexivity | exact Hind | exact Hi].
        + apply cut_keeps_clean; [reflexivity | exact Hind | exact Hno].
      - apply clean_writeLine; [rewrite E2; exact Hr|]. split; [|exact Hno].
        intros H. pose proof (Index_le_occurrence slashes) as Hle.
        destruct H as (x & y & E). specialize (Hle x line2 y E). lia. }
    destruct (Z.leb_spec 0 (Index line1 opening)) as [Hi|Hi].
    - destruct (isEmpty _); [simpl; rewrite E1; exact Hr|].
      apply Hlast; [simpl; exact E1|].
      apply cut_no_marker; [reflexivity | exact Hind | exact Hi].
    - apply Hlast; [exact E1|].
      intros H. pose proof (Index_le_occurrence opening) as Hle.
      destruct H as (x & y & E). specialize (Hle x line1 y E). lia. }
  unfold closeComment. destruct (inMultiLineComment st).
  - destruct (0 <=? Index line closing); [|exact Hr].
    destruct (isEmpty _); [simpl; exact Hr|]. apply Hrest. reflexivity.
  - apply Hrest. reflexivity.
Qed.

(** The output of [StripComments] holds neither ["//"] nor ["/*"],
    whatever the lines are: a line is cut at the first of either, also
    where it stands in a string literal. *)
Theorem StripComments_leaves_no_marker (lines : list (list byte)) (scanErr : error) :
  Index (fst (StripComments lines scanErr)) slashes = -1
  /\ Index (fst (StripComments lines scanErr)) opening = -1.
Proof.
  rewrite StripComments_TrimRight.
  assert (forall st, clean (result st) -> clean (result (fold_left stripLine lines st))) as Hfold.
  { induction lines as [|l ls IH]; intros st Hc; simpl; [exact Hc|].
    apply IH, clean_stripLine, Hc. }
  specialize (Hfold (mkState [] false false) clean_nil).
  destruct (TrimRight_prefix (result (fold_left stripLine lines (mkState [] false false))))
    as (k & ->).
  destruct Hfold as (H1 & H2).
  split; apply Index_absent; intros H; apply occurs_take in H; tauto.
Qed.

End Facts.

End LanguageFacts.

(** * Configuring a scanner *)

Module ScanOptsFacts.
Import scanner scanopts.

Section Facts.
Context {text : GoText} {fpath : GoPath}.

(** *** [Configure] *)

Lemma Configure_app os1 : forall os2 s s1,
  Configure os1 s = (s1, None) -> Configure (os1 ++ os2) s = Configure os2 s1.
Proof.
  induction os1 as [|opt os1 IH]; intros os2 s s1; simpl.
  - intros [= <-]. reflexivity.
  - destruct (opt s) as [s' [e|]]; [discriminate|]. apply IH.
Qed.

Lemma applyOptions_app os1 : forall os2 s s1,
  applyOptions os1 s = (Some s1, None) -> applyOptions (os1 ++ os2) s = applyOptions os2 s1.
Proof.
  induction os1 as [|opt os1 IH]; intros os2 s s1; simpl.
  - intros [= <-]. reflexivity.
  - destruct (opt s) as [s' [e|]]; [discriminate|]. apply IH.
Qed.

Lemma Configure_applyOptions os : forall s s1,
  Configure os s = (s1, None) <-> applyOptions os s = (Some s1, None).
Proof.
  induction os as [|opt os IH]; intros s s1; simpl.
  - split; intros [= <-]; reflexivity.
  - destruct (opt s) as [s' [e|]]; [split; discriminate|]. apply IH.
Qed.

(** [Configure] is not all or nothing. It applies its options in order and
    stops at the first that fails: the options before it stay applied to
    the scanner, the ones behind it are not looked at, and the error comes
    back behind the words "configuring scanner: ". Options that all
    succeed compose. [New] on the same options gives no scanner at all. *)
Theorem Configure_stops_at_first_error os1 opt os2 s s1 s2 e :
  Configure os1 s = (s1, None) ->
  opt s1 = (s2, Some e) ->
  Configure (os1 ++ opt :: os2) s = (s2, Some ("configuring scanner: " ++ e)%string)
  /\ applyOptions (os1 ++ opt :: os2) s = (None, Some e)
  /\ (forall os3, Configure (os1 ++ os3) s = Configure os3 s1).
Proof.
  intros H1 H2. split; [|split].
  - rewrite (Configure_app _ _ _ _ H1). simpl. rewrite H2. reflexivity.
  - apply Configure_applyOptions in H1. rewrite (applyOptions_app _ _ _ _ H1).
    simpl. rewrite H2. reflexivity.
  - intros os3. exact (Configure_app _ _ _ _ H1).
Qed.

(** *** [WithIgnorePattern] *)

Lemma addPatterns_spec patterns : forall s,
  fold_left
    (fun s pattern =>
       if negb (isBlank pattern)
       then mkScanner (with_IgnorePattern (opts s) (types.IgnorePattern (opts s) ++ [pattern]))
       else s)
    patterns s
  = mkScanner (with_IgnorePattern (opts s)
                 (types.IgnorePattern (opts s)
                  ++ List.filter (fun p => negb (isBlank p)) patterns)).
Proof.
  induction patterns as [|p patterns IH]; intros s; simpl.
  - rewrite app_nil_r. destruct s as [[? ? ? ?]]. reflexivity.
  - rewrite IH. destruct (isBlank p); simpl; [reflexivity|].
    rewrite <- app_assoc. reflexivity.
Qed.

(** [WithIgnorePattern] never fails. It adds the patterns that are not
    blank behind the ones the scanner has, in their order, and touches
    nothing else: patterns are never replaced, removed or made unique, and
    one call with two lists is two calls with a list each. *)
Theorem WithIgnorePattern_appends (a b : list string) (s : Scanner) :
  WithIgnorePattern a s
  = (mkScanner (types.mkScanOptions
                  (types.RootDir (opts s))
                  (types.IgnorePattern (opts s) ++ List.filter (fun p => negb (isBlank p)) a)
                  (types.MaxFileSize (opts s))
                  (types.MaxFiles (opts s))),
     None)
  /\ WithIgnorePattern (a ++ b) s = WithIgnorePattern b (fst (WithIgnorePattern a s)).
Proof.
  unfold WithIgnorePattern. rewrite !addPatterns_spec. simpl. split; [reflexivity|].
  rewrite List.filter_app, app_assoc. reflexivity.
Qed.

(** *** The limits of a scanner *)

Lemma standard_limits opt s :
  standard opt ->
  0 <= types.MaxFileSize (opts s) -> 0 <= types.MaxFiles (opts s) ->
  0 <= types.MaxFileSize (opts (fst (opt s))) /\ 0 <= types.MaxFiles (opts (fst (opt s))).
Proof.
  intros Hstd H1 H2. destruct Hstd as [dir|patterns|size|count].
  - unfold WithRootDir. destruct (Abs _); simpl; lia.
  - unfold WithIgnorePattern. rewrite addPatterns_spec. simpl. lia.
  - unfold WithMaxFileSize. destruct (Z.ltb_spec size 0); simpl; lia.
  - unfold WithMaxFiles. destruct (Z.ltb_spec count 0); simpl; lia.
Qed.

Lemma Configure_limits os : forall s,
  Forall standard os ->
  0 <= types.MaxFileSize (opts s) -> 0 <= types.MaxFiles (opts s) ->
  0 <= types.MaxFileSize (opts (fst (Configure os s)))
  /\ 0 <= types.MaxFiles (opts (fst (Configure os s))).
Proof.
  induction os as [|opt os IH]; intros s Hall H1 H2; simpl; [lia|].
  inversion Hall as [|? ? Hopt Hos]; subst.
  pose proof (standard_limits opt s Hopt H1 H2) as Hs.
  destruct (opt s) as [s' [e|]]; simpl in *; [exact Hs|].
  apply IH; [exact Hos | lia | lia].
Qed.

(** The limits of a scanner are never negative: not after [New], not
    after any [Configure], failed or not, and not after any [Scan], whose
    options can raise a limit but set none to zero or below. *)
Theorem made_limits_not_negative (s : Scanner) :
  made s ->
  0 <= types.MaxFileSize (opts s) /\ 0 <= types.MaxFiles (opts s).
Proof.
  induction 1 as [os s Hall HNew|os s _ IH Hall|s o _ IH].
  - unfold New in HNew. apply Configure_applyOptions in HNew.
    pose proof (Configure_limits os (mkScanner (types.mkScanOptions "." [] (Z.shiftl 1 20) 0))
                  Hall ltac:(vm_compute; discriminate) ltac:(vm_compute; discriminate)) as Hl.
    rewrite HNew in Hl. exact Hl.
  - apply Configure_limits; [exact Hall | lia | lia].
  - unfold Scan. destruct (negb _); destruct (Z.gtb_spec (types.MaxFileSize o) 0);
      destruct (0 <? _)%nat; destruct (Z.gtb_spec (types.MaxFiles o) 0); simpl; lia.
Qed.

(** *** [Scan] *)

(** The options of [Scan] only override, field by field. A root that is
    empty, a limit that is zero or below, and an empty list of patterns
    keep what the scanner has in that field, whatever the other fields
    are; any other value takes its place, and the patterns replace the
    scanner's, they are not added. So [Scan] cannot set a limit to zero,
    name an empty root or clear the patterns, and scanning twice with the
    same options is scanning once. *)
Theorem Scan_overrides_only (s : Scanner) (o : types.ScanOptions) :
  ((types.RootDir o = ""%string ->
    types.RootDir (opts (Scan s o)) = types.RootDir (opts s))
   /\ (types.RootDir o <> ""%string ->
       types.RootDir (opts (Scan s o)) = types.RootDir o)
   /\ (types.MaxFileSize o <= 0 ->
       types.MaxFileSize (opts (Scan s o)) = types.MaxFileSize (opts s))
   /\ (0 < types.MaxFileSize o ->
       types.MaxFileSize (opts (Scan s o)) = types.MaxFileSize o)
   /\ (types.IgnorePattern o = [] ->
       types.IgnorePattern (opts (Scan s o)) = types.IgnorePattern (opts s))
   /\ (types.IgnorePattern o <> [] ->
       types.IgnorePattern (opts (Scan s o)) = types.IgnorePattern o)
   /\ (types.MaxFiles o <= 0 ->
       types.MaxFiles (opts (Scan s o)) = types.MaxFiles (opts s))
   /\ (0 < types.MaxFiles o ->
       types.MaxFiles (opts (Scan s o)) = types.MaxFiles o))
  /\ Scan s (types.mkScanOptions "" [] 0 0) = s
  /\ Scan (Scan s o) o = Scan s o
  /\ (types.MaxFileSize (opts (Scan s o)) = 0 -> types.MaxFileSize (opts s) = 0)
  /\ (types.MaxFiles (opts (Scan s o)) = 0 -> types.MaxFiles (opts s) = 0)
  /\ (types.IgnorePattern (opts (Scan s o)) = [] -> types.IgnorePattern (opts s) = [])
  /\ (types.RootDir (opts (Scan s o)) = ""%string -> types.RootDir (opts s) = ""%string).
Proof.
  destruct s as [[r ps fs n]]. destruct o as [r' ps' fs' n'].
  unfold Scan. simpl.
  destruct (String.eqb_spec r' ""); destruct (Z.gtb_spec fs' 0);
    destruct ps' as [|p' ps']; destruct (Z.gtb_spec n' 0); simpl;
    repeat split; intros; try congruence; try lia.
Qed.

(** *** The file limit *)

(** [MaxFiles] is stored, and that is all: the skip decision and the
    callback of the walk are the same whatever it is set to. No limit on
    the number of files is enforced. *)
Theorem MaxFiles_is_not_enforced (s : Scanner) (count : Z) (path : string) (info : FileInfo) :
  shouldSkip (mkScanner (with_MaxFiles (opts s) count)) path info = shouldSkip s path info
  /\ visit (mkScanner (with_MaxFiles (opts s) count)) path info = visit s path info.
Proof.
  assert (shouldSkip (mkScanner (with_MaxFiles (opts s) count)) path info
          = shouldSkip s path info) as E by (destruct s as [[r ps fs n]]; reflexivity).
  split; [exact E|]. unfold visit. rewrite E. reflexivity.
Qed.

End Facts.

End ScanOptsFacts.

(** * From the configuration to the scanner and the processor *)

Module ConfigFacts.
Import config.

Section Facts.
Context {text : GoText} {fpath : GoPath}.

(** A configuration that [Validate] accepts gives [main] its scanner
    whenever the working directory resolves: with the resolved root, the
    patterns that are not blank in their order, and the two limits. It
    gives [main] its processor too, with a positive chunk size: that of
    the configuration, or 4096 in place of zero. *)
Theorem validated_config_starts (cfg : Config) (root : string) :
  Validate cfg = None ->
  Abs "." = Some root ->
  main_scanner cfg
  = (Some (scanner.mkScanner
             (types.mkScanOptions root
                (List.filter (fun p => negb (isBlank p)) (IgnorePatterns (Scanner cfg)))
                (MaxFileSize (Scanner cfg)) (MaxFiles (Scanner cfg)))),
     None)
  /\ main_processor cfg
     = (Some (proc.mkProcessor
                (ptypes.mkProcessorOptions
                   (if MaxChunkSize (Processor cfg) =? 0 then 4096
                    else MaxChunkSize (Processor cfg))
                   (ChunkOverlap (Processor cfg)) (MaxTokens (Processor cfg))
                   (StripComments (Processor cfg)))),
        None)
  /\ 0 <= ChunkOverlap (Processor cfg) /\ 0 <= MaxTokens (Processor cfg).
Proof.
  unfold Validate. intros Hv Habs.
  destruct (Z.ltb_spec (MaxFileSize (Scanner cfg)) 0) as [|H1]; [discriminate|].
  destruct (Z.ltb_spec (MaxFiles (Scanner cfg)) 0) as [|H2]; [discriminate|].
  destruct (Z.ltb_spec (MaxChunkSize (Processor cfg)) 0) as [|H3]; [discriminate|].
  destruct (Z.ltb_spec (ChunkOverlap (Processor cfg)) 0) as [|H4]; [discriminate|].
  destruct (Z.ltb_spec (MaxTokens (Processor cfg)) 0) as [|H5]; [discriminate|].
  split; [|split; [|split; assumption]].
  - unfold main_scanner, scanner.New. simpl.
    unfold scanner.WithRootDir, scanner.WithMaxFileSize, scanner.WithMaxFiles. simpl.
    rewrite Habs.
    replace (MaxFileSize (Scanner cfg) <? 0) with false by (symmetry; apply Z.ltb_ge; lia).
    replace (MaxFiles (Scanner cfg) <? 0) with false by (symmetry; apply Z.ltb_ge; lia).
    rewrite ScanOptsFacts.addPatterns_spec. reflexivity.
  - unfold main_processor, proc.New. simpl.
    destruct (Z.leb_spec (MaxChunkSize (Processor cfg)) 0) as [Hle|Hgt].
    + replace (MaxChunkSize (Processor cfg) =? 0) with true by (symmetry; apply Z.eqb_eq; lia).
      reflexivity.
    + replace (MaxChunkSize (Processor cfg) =? 0) with false by (symmetry; apply Z.eqb_neq; lia).
      destruct cfg as [sc [m1 m2 m3 m4 m5]]. reflexivity.
Qed.

End Facts.

End ConfigFacts.

(** * The patterns of the directory tree *)

Module FsFacts.
Import fs.

Lemma prefix_spec (p s : string) :
  String.prefix p s = true <-> exists b, s = (p ++ b)%string.
Proof.
  revert s. induction p as [|c p IH]; intros s.
  - destruct s; simpl; (split; [intros _; eexists; reflexivity | intros _; reflexivity]).
  - destruct s as [|d s]; simpl; [split; [discriminate | intros (b & [=])]|].
    destruct (Ascii.ascii_dec c d) as [->|Hne].
    + rewrite IH. split; intros (b & E); exists b; [rewrite E; reflexivity | congruence].
    + split; [discriminate | intros (b & [=]); congruence].
Qed.

Lemma Contains_spec (s substr : string) :
  Contains s substr = true <-> exists a b, s = (a ++ substr ++ b)%string.
Proof.
  induction s as [|c s IH]; cbn [Contains].
  - rewrite orb_false_r, prefix_spec. split.
    + intros (b & E). exists ""%string, b. exact E.
    + intros (a & b & E). destruct a as [|? ?]; [exists b; exact E | discriminate].
  - rewrite orb_true_iff, IH, prefix_spec. split.
    + intros [(b & E)|(a & b & E)].
      * exists ""%string, b. exact E.
      * exists (String c a), b. rewrite E. reflexivity.
    + intros (a & b & E). destruct a as [|d a].
      * left. exists b. exact E.
      * right. injection E as _ E. exists a, b. exact E.
Qed.

Lemma string_app_assoc (a b c : string) : ((a ++ b) ++ c = a ++ (b ++ c))%string.
Proof. induction a as [|x a IH]; simpl; [reflexivity | rewrite IH; reflexivity]. Qed.

Section Facts.
Context {fpath : GoPath}.
Variable Base : string -> string.

(** [shouldIgnore] holds exactly when some pattern that is not empty hits:
    a pattern with a star when it matches the last element of the path as
    a well-formed glob, a pattern without one when it occurs anywhere in
    the path. So a pattern without a star that ignores a path ignores
    every path the first is a part of, whatever stands before and behind. *)
Theorem shouldIgnore_spec (path : string) (patterns : list string) :
  (shouldIgnore Base path patterns = true <->
   exists pattern,
     In pattern patterns /\ pattern <> ""%string
     /\ (if Contains pattern "*"
         then Match pattern (Base path) = (true, false)
         else exists a b, path = (a ++ pattern ++ b)%string))
  /\ (forall pattern before behind,
        In pattern patterns -> pattern <> ""%string -> Contains pattern "*" = false ->
        Contains path pattern = true ->
        shouldIgnore Base (before ++ path ++ behind) patterns = true).
Proof.
  assert (forall path,
            shouldIgnore Base path patterns = true <->
            exists pattern,
              In pattern patterns /\ pattern <> ""%string
              /\ (if Contains pattern "*"
                  then Match pattern (Base path) = (true, false)
                  else exists a b, path = (a ++ pattern ++ b)%string)) as Hspec.
  { clear path. intros path. induction patterns as [|p ps IH]; simpl.
    - split; [discriminate | intros (p & [] & _)].
    - destruct (String.eqb_spec p "") as [->|Hne].
      + rewrite IH. split.
        * intros (q & Hin & Hq). exists q. split; [right; exact Hin | exact Hq].
        * intros (q & [<-|Hin] & Hne & Hq); [congruence|]. exists q. auto.
      + destruct (Contains p "*") eqn:Estar.
        * destruct (Match p (Base path)) as [matched bad] eqn:Em.
          destruct (negb bad && matched) eqn:Ehit.
          -- split; [intros _|reflexivity]. exists p. split; [left; reflexivity|].
             split; [exact Hne|]. rewrite Estar.
             destruct bad; destruct matched; try discriminate. exact Em.
          -- rewrite IH. split.
             ++ intros (q & Hin & Hq). exists q. split; [right; exact Hin | exact Hq].
             ++ intros (q & [<-|Hin] & Hq1 & Hq2).
                ** rewrite Estar, Em in Hq2. injection Hq2 as -> ->.
                   simpl in Ehit. discriminate Ehit.
                ** exists q. auto.
        * destruct (Contains path p) eqn:Ec.
          -- split; [intros _|reflexivity]. exists p. split; [left; reflexivity|].
             split; [exact Hne|]. rewrite Estar. apply Contains_spec. exact Ec.
          -- rewrite IH. split.
             ++ intros (q & Hin & Hq). exists q. split; [right; exact Hin | exact Hq].
             ++ intros (q & [<-|Hin] & Hq1 & Hq2).
                ** rewrite Estar in Hq2. apply Contains_spec in Hq2. congruence.
                ** exists q. auto. }
  split; [apply Hspec|].
  intros pattern before behind Hin Hne Hstar Hc. apply Hspec.
  exists pattern. split; [exact Hin|]. split; [exact Hne|]. rewrite Hstar.
  apply Contains_spec in Hc. destruct Hc as (a & b & ->).
  exists (before ++ a)%string, (b ++ behind)%string.
  rewrite !string_app_assoc. reflexivity.
Qed.

End Facts.

End FsFacts.

(** * The code on concrete inputs *)

Module Examples.
Import processor scanner Ascii7Facts.

Definition bytesOf (s : string) : list byte := list_byte_of_string s.

(** The content of the repository's own chunker test. *)
Definition testContent : list byte :=
  bytesOf "this is a longer content that should be split into multiple chunks".

Definition seventy : list byte := repeat "a"%byte 70.

Definition opts_20_5 : ChunkerOptions := mkChunkerOptions 20 5 0 false.
Definition opts_20_25 : ChunkerOptions := mkChunkerOptions 20 25 0 false.
Definition opts_0_0 : ChunkerOptions := mkChunkerOptions 0 0 0 false.
Definition opts_negative : ChunkerOptions := mkChunkerOptions (-1) 0 0 false.

Definition contents (r : option (outcome (list types.Chunk * error))) : list (list byte) :=
  match r with
  | Some (Returned (cs, _)) => map types.Content cs
  | _ => []
  end.

Definition scanner0 : Scanner :=
  mkScanner (types.mkScanOptions "." ["node_modules"; "ignored/*"; "*.bin"]%string
               (Z.shiftl 1 20) 0).

(** C1: the code drops bytes. On the content of the repository's test, with
    [MaxSize = 20] and [Overlap = 5], the newline appended to the first chunk
    is written over byte 20 of the content, the [t] of "content"; the second
    chunk is cut afterwards, from offset 15, and reads the newline in its
    place. The same happens to bytes 35 and 65. The chunks, put end to end
    without their overlaps, are not the content. *)
Theorem Chunk_loses_bytes :
  contents (Chunk (text:=text7) opts_20_5 (mkByteSlice testContent []))
  = [ bytesOf "this is a longer con" ++ [newline];
      bytesOf "r con" ++ [newline] ++ bytesOf "ent that shoul" ++ [newline];
      bytesOf "shoul" ++ [newline] ++ bytesOf " be split into" ++ [newline];
      bytesOf "into" ++ [newline] ++ bytesOf "multiple chunk" ++ [newline];
      bytesOf "chunk" ++ [newline];
      bytesOf "hunk" ++ [newline] ]
  /\ testContent !! 20%nat = Some "t"%byte
  /\ (exists c, contents (Chunk (text:=text7) opts_20_5 (mkByteSlice testContent [])) !! 1%nat
                = Some c
                /\ take 5 c = take 5 (drop 15 testContent)
                /\ c !! 5%nat = Some newline)
  /\ match Chunk (text:=text7) opts_20_5 (mkByteSlice testContent []) with
     | Some (Returned (cs, _)) => stitch 5 (map body cs) <> testContent
     | _ => False
     end.
Proof.
  split; [vm_compute; reflexivity|]. split; [reflexivity|]. split.
  - eexists. split; [vm_compute; reflexivity|]. split; reflexivity.
  - vm_compute. discriminate.
Qed.



Lemma Chunk_empty_or_fitting_witness :
  Chunk (text:=text7) opts_20_5 (mkByteSlice [] []) = Some (Returned ([], None))
  /\ exists tokens,
      Chunk (text:=text7) opts_20_5 (mkByteSlice (bytesOf "  hello world ") [])
      = Some (Returned
                ([types.mkChunk (TrimSpace (text:=text7) (bytesOf "  hello world ") ++ [newline])
                    1 1 tokens], None)).
Proof.
  split.
  - apply (proj1 (ChunkerFacts.Chunk_empty_or_fitting (text:=text7) opts_20_5 [] [])).
    reflexivity.
  - apply (proj2 (ChunkerFacts.Chunk_empty_or_fitting (text:=text7) opts_20_5
                    (bytesOf "  hello world ") [])).
    + discriminate.
    + simpl. lia.
Defined.

(** Against C4 as it is stated: the last full window of 70 bytes starts at
    45; the next one, at 60, is clamped to 10 bytes, and the position
    advances by 5, not by [max(1, 20 - 5)]. *)
Lemma advance_after_clamped_window :
  exists s4 s5,
    after (text:=text7) 4 opts_20_5 70 (mkState seventy 0 []) = Some s4
    /\ pos s4 = 60
    /\ loop_body (text:=text7) opts_20_5 70 s4 = Break s5
    /\ pos s5 = 65
    /\ pos s5 - pos s4 <> Z.max 1 (MaxSize opts_20_5 - Overlap opts_20_5).
Proof.
  eexists. eexists. split; [vm_compute; reflexivity|].
  split; [reflexivity|]. split; [vm_compute; reflexivity|].
  split; [reflexivity|]. simpl. lia.
Qed.

Lemma loop_body_advance_witness :
  exists s',
    (loop_body (text:=text7) opts_20_5 70 (mkState seventy 45 []) = Next s'
     \/ loop_body (text:=text7) opts_20_5 70 (mkState seventy 45 []) = Break s')
    /\ pos s' = 45 + Z.max 1 (Z.min 20 (70 - 45) - 5)
    /\ (45 + 20 <= 70 -> pos s' = 45 + Z.max 1 (20 - 5)).
Proof.
  apply (ChunkerFacts.loop_body_advance (text:=text7) opts_20_5 70 (mkState seventy 45 []));
    unfold Int64.max_int; simpl; lia.
Defined.

(** Against C5 as it is stated: a negative [MaxSize] makes the first slice
    expression panic. *)
Lemma Chunk_negative_MaxSize_panics :
  Chunk (text:=text7) opts_negative (mkByteSlice (bytesOf "a") []) = Some Panicked
  /\ ~ exists cs err,
       Chunk (text:=text7) opts_negative (mkByteSlice (bytesOf "a") [])
       = Some (Returned (cs, err)).
Proof.
  split; [vm_compute; reflexivity|].
  intros (cs & err & E). vm_compute in E. discriminate E.
Qed.

Lemma Chunk_terminates_witness :
  (exists r,
     Chunk (text:=text7) opts_20_25 (mkByteSlice testContent []) = Some r
     /\ forall fuel, (length testContent < fuel)%nat ->
          option_map result_of
            (Chunk_run (text:=text7) fuel opts_20_25 (mkByteSlice testContent []))
          = Some r)
  /\ exists cs,
       Chunk (text:=text7) opts_20_25 (mkByteSlice testContent []) = Some (Returned (cs, None)).
Proof.
  destruct (ChunkerFacts.Chunk_terminates (text:=text7) opts_20_25 (mkByteSlice testContent []))
    as [Htotal Hreturns].
  split; [exact Htotal|].
  apply Hreturns; unfold Int64.max_int; simpl; lia.
Defined.

(** Against C8 as it is stated: 70 bytes give 6 chunks, not 4. *)
Lemma Chunk_seventy_gives_six :
  exists cs,
    Chunk (text:=text7) opts_20_5 (mkByteSlice seventy []) = Some (Returned (cs, None))
    /\ length cs = 6%nat /\ length cs <> 4%nat.
Proof.
  eexists. split; [vm_compute; reflexivity|]. split; [reflexivity | simpl; lia].
Qed.

Lemma Chunk_seventy_witness :
  Chunk_plan opts_20_5 70 = Some (Returned windows70)
  /\ exists cs,
      Chunk (text:=text7) opts_20_5 (mkByteSlice seventy []) = Some (Returned (cs, None))
      /\ cs = (let '(rs, m1) := emit (text:=text7) windows70 (seventy ++ []) in
               map (publish m1) rs)
      /\ length cs = 6%nat
      /\ Forall2 (fun w c => (length (body c) <= snd w <= 20)%nat) windows70 cs
      /\ forall i wi wn ci cn,
           windows70 !! i = Some wi -> windows70 !! S i = Some wn ->
           cs !! i = Some ci -> cs !! S i = Some cn ->
           length (types.Content ci) = (snd wi + 1)%nat ->
           length (types.Content cn) = (snd wn + 1)%nat ->
           drop (length (body ci) - 5) (body ci) = take 5 (body cn).
Proof.
  apply (ChunkerFacts.Chunk_seventy (text:=text7) opts_20_5 seventy []); reflexivity.
Defined.

Lemma Chunk_zero_size_witness :
  exists cs,
    Chunk (text:=text7) opts_0_0 (mkByteSlice (bytesOf "abc") []) = Some (Returned (cs, None))
    /\ length cs = length (bytesOf "abc")
    /\ Forall (fun c => types.Content c = [newline]) cs.
Proof.
  apply (ChunkerFacts.Chunk_zero_size (text:=text7) opts_0_0 (bytesOf "abc") []).
  - reflexivity.
  - reflexivity.
  - discriminate.
  - unfold Int64.max_int. simpl. lia.
Defined.

(** Against C7 as it is stated: a pattern that is a substring of the path
    does not match. The
    directory [sub/node_modules] is descended into and a file below it is
    sent to the workers, although the pattern [node_modules] occurs in both
    paths; [*.bin] does not match below the top either. *)
Lemma shouldSkip_no_substring_match :
  substring 4 12 "sub/node_modules" = "node_modules"%string
  /\ "node_modules"%string ∈ types.IgnorePattern (opts scanner0)
  /\ shouldSkip (fpath:=path7) scanner0 "sub/node_modules" (mkFileInfo true 0) = (false, false)
  /\ visit (fpath:=path7) scanner0 "sub/node_modules" (mkFileInfo true 0) = Pass
  /\ visit (fpath:=path7) scanner0 "sub/node_modules/x.js" (mkFileInfo false 10)
     = Send "sub/node_modules/x.js"
  /\ shouldSkip (fpath:=path7) scanner0 "sub/b.bin" (mkFileInfo false 4) = (false, false).
Proof.
  split; [reflexivity|]. split; [apply list_elem_of_here|].
  repeat split; vm_compute; reflexivity.
Qed.

Lemma shouldSkip_forms_witness :
  shouldSkip (fpath:=path7) scanner0 "ignored/c.txt" (mkFileInfo false 3) = (true, false)
  /\ visit (fpath:=path7) scanner0 "ignored/sub" (mkFileInfo true 0) = SkipDir
  /\ existsb (fun p => patternHits (fpath:=path7) p
                         (relPathOf (fpath:=path7) scanner0 "ignored/sub/deep.txt"))
       (types.IgnorePattern (opts scanner0)) = true.
Proof.
  destruct (ScannerFacts.shouldSkip_forms (fpath:=path7) scanner0 "ignored/c.txt"
              (mkFileInfo false 3)) as (E1 & _ & _).
  destruct (ScannerFacts.shouldSkip_forms (fpath:=path7) scanner0 "ignored/sub"
              (mkFileInfo true 0)) as (_ & E2 & _).
  destruct (ScannerFacts.shouldSkip_forms (fpath:=path7) scanner0 "ignored/sub/deep.txt"
              (mkFileInfo false 3)) as (_ & _ & E3).
  split; [rewrite E1; reflexivity|]. split; [rewrite E2; reflexivity|].
  apply (E3 "ignored"%string).
  - apply list_elem_of_further, list_elem_of_here.
  - reflexivity.
  - reflexivity.
Defined.


Lemma isBinaryFile_spec_witness :
  isBinaryFile (text:=text7) (Holds [x00; x01; x02; x03]) = (true, None)
  /\ isBinaryFile (text:=text7) (Holds (bytesOf "Hello, World!")) = (false, None)
  /\ isBinaryFile (text:=text7) (Holds (repeat newline 40)) = (false, None)
  /\ isBinaryFile (text:=text7) (Holds (repeat x00 4 ++ repeat newline 6)) = (true, None)
  /\ isBinaryFile (text:=text7) (Holds (repeat x00 3 ++ repeat newline 7)) = (false, None)
  /\ isBinaryFile (text:=text7) (Holds (repeat x00 600 ++ bytesOf "tail"))
     = isBinaryFile (text:=text7) (Holds (repeat x00 600 ++ bytesOf "other")).
Proof.
  destruct (ScannerFacts.isBinaryFile_spec (text:=text7) [x00; x01; x02; x03])
    as (_ & E1 & _ & _).
  destruct (ScannerFacts.isBinaryFile_spec (text:=text7) (bytesOf "Hello, World!"))
    as (_ & E2 & _ & _).
  destruct (ScannerFacts.isBinaryFile_spec (text:=text7) (repeat newline 40))
    as (_ & E3 & _ & _).
  destruct (ScannerFacts.isBinaryFile_spec (text:=text7) (repeat x00 4 ++ repeat newline 6))
    as (_ & E4 & _ & _).
  destruct (ScannerFacts.isBinaryFile_spec (text:=text7) (repeat x00 3 ++ repeat newline 7))
    as (_ & E5 & _ & _).
  destruct (ScannerFacts.isBinaryFile_spec (text:=text7) (repeat x00 600 ++ bytesOf "tail"))
    as (_ & _ & _ & E6).
  split; [rewrite E1; reflexivity|]. split; [rewrite E2; reflexivity|].
  split; [rewrite E3; reflexivity|]. split; [rewrite E4; reflexivity|].
  split; [rewrite E5; reflexivity|].
  symmetry. apply E6. reflexivity.
Defined.

End Examples.

(** * More of the code on concrete inputs *)

Module MoreExamples.
Import processor scanner Ascii7Facts.

(** The repository's chunker test once more: 66 bytes, [MaxSize = 20],
    [Overlap = 5]. *)
Definition testSlice : ByteSlice := mkByteSlice Examples.testContent [].

Definition opts_5_5 : ChunkerOptions := mkChunkerOptions 5 5 0 false.

Definition entry0 : ptypes.FileEntry := ptypes.mkFileEntry "notes.txt" 66 0 false false "".

Definition processor0 : proc.Processor :=
  proc.mkProcessor (ptypes.mkProcessorOptions 20 5 0 false).

(** A file system with one file, a detector that knows no language and a
    stripper that strips nothing. *)
Definition readTest (path : string) : ByteSlice * error := (testSlice, None).
Definition detectNone (path : string) (content : list byte) : string * error :=
  ("unknown"%string, None).
Definition stripNone (content : list byte) (language : string) : ByteSlice * error :=
  (mkByteSlice content [], None).

Definition config0 : config.Config :=
  config.mkConfig
    (config.mkScannerConfig [".git"; " "; "*.exe"]%string (Z.shiftl 1 20) 1000)
    (config.mkProcessorConfig 0 200 2000 false true).

Lemma Chunk_overwrites_with_newlines_witness :
  exists s,
    Chunk_run (text:=text7) (S (length (elems testSlice))) Examples.opts_20_5 testSlice
    = Some (Returned s)
    /\ (Chunk (text:=text7) Examples.opts_20_5 testSlice
        = Some (Returned (map (publish (mem s)) (chunks s), None))
        /\ length (mem s) = length (elems testSlice ++ room testSlice)
        /\ (exists ps,
              (length ps <= length (chunks s))%nat
              /\ mem s = chunker.writeNewlines ps (elems testSlice ++ room testSlice))
        /\ mem s !! 0%nat = (elems testSlice ++ room testSlice) !! 0%nat
        /\ (forall q, mem s !! q = (elems testSlice ++ room testSlice) !! q
                      \/ mem s !! q = Some newline)).
Proof.
  eexists. split; [vm_compute; reflexivity|].
  apply (ChunkMore.Chunk_overwrites_with_newlines (text:=text7) Examples.opts_20_5 testSlice).
  vm_compute. reflexivity.
Defined.

Lemma Chunk_windows_cover_witness :
  exists ws,
    Chunk_plan Examples.opts_20_5 (length (elems testSlice)) = Some (Returned ws)
    /\ forall i, (i < length (elems testSlice))%nat ->
         exists off n, (off, n) ∈ ws /\ (off <= i < off + n)%nat.
Proof.
  destruct (ChunkMore.Chunk_windows_cover (text:=text7) Examples.opts_20_5 testSlice)
    as (ws & Hp & _ & _ & Hc).
  - simpl. lia.
  - unfold Int64.max_int. simpl. lia.
  - vm_compute. reflexivity.
  - exists ws. split; [exact Hp | exact Hc].
Defined.

Lemma Chunk_count_witness :
  exists cs,
    Chunk (text:=text7) Examples.opts_20_5 testSlice = Some (Returned (cs, None))
    /\ ((length cs <= length (elems testSlice))%nat
        /\ (1 <= MaxSize Examples.opts_20_5 < Z.of_nat (length (elems testSlice)) ->
            0 <= Overlap Examples.opts_20_5 <= Int64.max_int ->
            Z.of_nat (length (elems testSlice)) < 2 ^ 62 ->
            (2 <= length cs)%nat)).
Proof.
  eexists. split; [vm_compute; reflexivity|].
  apply (ChunkMore.Chunk_count (text:=text7) Examples.opts_20_5 testSlice _ None).
  vm_compute. reflexivity.
Defined.

Lemma Chunk_line_numbers_witness :
  exists cs,
    Chunk (text:=text7) Examples.opts_20_5 testSlice = Some (Returned (cs, None))
    /\ (@None string = None
        /\ Forall (fun c => types.StartLine c = 1 /\ types.EndLine c = 1) cs).
Proof.
  eexists. split; [vm_compute; reflexivity|].
  apply (ChunkMore.Chunk_line_numbers (text:=text7) Examples.opts_20_5 testSlice _ None).
  vm_compute. reflexivity.
Defined.

Lemma Chunk_reads_sizes_only_witness :
  Chunk (text:=text7) (mkChunkerOptions 20 5 0 false) testSlice
  = Chunk (text:=text7) (mkChunkerOptions 20 5 3 true) testSlice.
Proof.
  apply (ChunkMore.Chunk_reads_sizes_only (text:=text7)); reflexivity.
Defined.

Lemma countTokens_counts_words_witness :
  countTokens_from (text:=text7) ([104; 105] ++ 32 :: [116; 104; 101; 114; 101]) false 0
  = countTokens_from (text:=text7) [104; 105] false 0
    + countTokens_from (text:=text7) [116; 104; 101; 114; 101] false 0.
Proof.
  apply (ChunkMore.countTokens_counts_words (text:=text7)). reflexivity.
Defined.


Lemma chunkSingleLine_never_returns_witness :
  chunker.chunkSingleLine_run (text:=text7) 1000 opts_5_5
    (mkByteSlice (Examples.bytesOf "abcdefgh") [])
  = None.
Proof.
  apply (ChunkerMore.chunkSingleLine_never_returns (text:=text7)).
  - simpl. lia.
  - simpl. lia.
  - vm_compute. discriminate.
Defined.

Lemma chunkSingleLine_returns_witness :
  exists cs,
    chunker.chunkSingleLine (text:=text7) Examples.opts_20_5 testSlice
    = Some (Returned (cs, None)).
Proof.
  apply (ChunkerMore.chunkSingleLine_returns (text:=text7)).
  - simpl. lia.
  - vm_compute. reflexivity.
Defined.


Lemma Process_returns_chunked_content_witness :
  exists pc,
    proc.Process (text:=text7) readTest detectNone stripNone processor0 entry0
    = Some (Returned (pc, None))
    /\ length (ptypes.Content pc) = length Examples.testContent
    /\ ptypes.Content pc <> Examples.testContent
    /\ (2 <= length (ptypes.Chunks pc))%nat.
Proof.
  destruct (ProcFacts.Process_returns_chunked_content (text:=text7)
              readTest detectNone stripNone processor0 entry0 testSlice)
    as (pc & H1 & _ & H2 & _ & _ & H3).
  - reflexivity.
  - reflexivity.
  - reflexivity.
  - simpl. lia.
  - unfold Int64.max_int. simpl. lia.
  - vm_compute. reflexivity.
  - exists pc. split; [exact H1|]. split; [exact H2|]. split.
    + vm_compute in H1. injection H1 as <-. vm_compute. discriminate.
    + apply H3; simpl; lia.
Defined.

Lemma Configure_stops_at_first_error_witness :
  scanopts.Configure [WithMaxFiles 5; WithMaxFileSize (-1); WithMaxFiles 7] Examples.scanner0
  = (mkScanner (with_MaxFiles (opts Examples.scanner0) 5),
     Some "configuring scanner: max file size must be non-negative"%string)
  /\ applyOptions [WithMaxFiles 5; WithMaxFileSize (-1); WithMaxFiles 7] Examples.scanner0
     = (None, Some "max file size must be non-negative"%string).
Proof.
  destruct (ScanOptsFacts.Configure_stops_at_first_error
              [WithMaxFiles 5] (WithMaxFileSize (-1)) [WithMaxFiles 7] Examples.scanner0
              (mkScanner (with_MaxFiles (opts Examples.scanner0) 5))
              (mkScanner (with_MaxFiles (opts Examples.scanner0) 5))
              "max file size must be non-negative"%string)
    as (H1 & H2 & _).
  - reflexivity.
  - reflexivity.
  - split; [exact H1 | exact H2].
Defined.

(** The scanner [New] makes from the default options, configured with a
    list that fails at its second option, and sent to scan. *)
Definition scanner1 : Scanner :=
  match New (scanopts.DefaultOptions (text:=text7) (fpath:=path7)) with
  | (Some s, _) => s
  | (None, _) => Examples.scanner0
  end.

Lemma made_limits_not_negative_witness :
  0 <= types.MaxFileSize
         (opts (scanopts.Scan
                  (fst (scanopts.Configure [WithMaxFiles 5; WithMaxFileSize (-1)] scanner1))
                  (types.mkScanOptions "" [] (-3) 0)))
  /\ 0 <= types.MaxFiles
            (opts (scanopts.Scan
                     (fst (scanopts.Configure [WithMaxFiles 5; WithMaxFileSize (-1)] scanner1))
                     (types.mkScanOptions "" [] (-3) 0))).
Proof.
  apply (ScanOptsFacts.made_limits_not_negative (text:=text7) (fpath:=path7)).
  apply scanopts.made_Scan. apply scanopts.made_Configure.
  - apply (scanopts.made_New (scanopts.DefaultOptions (text:=text7) (fpath:=path7))).
    + repeat constructor.
    + reflexivity.
  - repeat constructor.
Defined.

Lemma validated_config_starts_witness :
  exists s p,
    config.main_scanner (text:=text7) (fpath:=path7) config0 = (Some s, None)
    /\ types.IgnorePattern (opts s) = [".git"; "*.exe"]%string
    /\ config.main_processor config0 = (Some p, None)
    /\ ptypes.MaxChunkSize (proc.opts p) = 4096.
Proof.
  destruct (ConfigFacts.validated_config_starts (text:=text7) (fpath:=path7) config0 "/."%string)
    as (H1 & H2 & _).
  - reflexivity.
  - reflexivity.
  - eexists _, _. split; [exact H1|]. split; [reflexivity|]. split; [exact H2 | reflexivity].
Defined.


(** A stripper that leaves one word of any content. *)
Definition stripToWord (content : list byte) (language : string) : ByteSlice * error :=
  (mkByteSlice (Examples.bytesOf " word ") (repeat x00 8), None).

Definition processor1 : proc.Processor :=
  proc.mkProcessor (ptypes.mkProcessorOptions 20 5 0 true).

Lemma Process_chunks_stripped_content_witness :
  exists pc tokens,
    proc.Process (text:=text7) readTest detectNone stripToWord processor1 entry0
    = Some (Returned (pc, None))
    /\ ptypes.Chunks pc = [types.mkChunk (Examples.bytesOf "word" ++ [newline]) 1 1 tokens].
Proof.
  destruct (ProcFacts.Process_chunks_stripped_content (text:=text7)
              readTest detectNone stripToWord processor1 entry0 testSlice
              (mkByteSlice (Examples.bytesOf " word ") (repeat x00 8)))
    as (pc & H1 & _ & _ & H2).
  - reflexivity.
  - reflexivity.
  - reflexivity.
  - intros language. reflexivity.
  - simpl. lia.
  - simpl. lia.
  - destruct H2 as (tokens & H2); [discriminate|].
    exists pc, tokens. split; [exact H1 | exact H2].
Defined.

End MoreExamples.
